(** * swayimg, [src/mode.c]: action dispatch and execution of shell commands

    A shallow embedding of [execute_cmd], [collect_paths] and [mode_handle].
    C strings are kept as the bytes found behind the pointer, so that the
    NUL-terminator arithmetic of the status trimming is visible; calls into
    the other translation units (info, ui, application, shellcmd, imglist,
    help) are recorded, in program order, in a log carried by the state. *)

From Stdlib Require Import ZArith List String Ascii Bool Lia.
Import ListNotations.

Local Open Scope list_scope.
Local Open Scope string_scope.

(** ** C strings *)

Module CStr.

(** The terminating byte of a C string. *)
Definition NUL : ascii := Ascii.zero.

(** A [string] stands for the bytes stored from a [char*] onwards.  Reading
    it as a C string stops at the first [NUL]; the end of the Rocq value
    counts as a terminator too, so a literal needs no explicit ["\000"]. *)
Fixpoint strlen (s : string) : nat :=
  match s with
  | EmptyString => 0
  | String c rest => if Ascii.eqb c NUL then 0 else S (strlen rest)
  end.

(** The characters a reader of the C string sees ([printf("%s")]). *)
Fixpoint c_str (s : string) : string :=
  match s with
  | EmptyString => EmptyString
  | String c rest => if Ascii.eqb c NUL then EmptyString else String c (c_str rest)
  end.

(** The first [n] bytes behind a pointer. *)
Fixpoint take (n : nat) (s : string) : string :=
  match n, s with
  | S n', String c rest => String c (take n' rest)
  | _, _ => EmptyString
  end.

(** The bytes from offset [n] on. *)
Fixpoint drop (n : nat) (s : string) : string :=
  match n, s with
  | S n', String _ rest => drop n' rest
  | _, _ => s
  end.

(** [memcpy(dst + off, src, length src)]: the bytes of [src] replace those
    of [dst] from offset [off].  A write past the end of [dst] is undefined
    in C; here the buffer keeps its size and the excess is dropped. *)
Fixpoint memcpy (dst : string) (off : nat) (src : string) : string :=
  match dst with
  | EmptyString => EmptyString
  | String c rest =>
      match off with
      | S off' => String c (memcpy rest off' src)
      | O =>
          match src with
          | EmptyString => dst
          | String x src' => String x (memcpy rest 0 src')
          end
      end
  end.

(** No byte of [s] is the terminator. *)
Fixpoint no_nul (s : string) : bool :=
  match s with
  | EmptyString => true
  | String c rest => negb (Ascii.eqb c NUL) && no_nul rest
  end.

(** Modelled from the spec: [str_dup] lives in another translation unit of
    the repository; section 4.3 has the message start with the given literal.
    The new heap buffer holds a copy of the C string and its terminator. *)
Definition str_dup (src : string) : string :=
  c_str src ++ String NUL EmptyString.

(** Modelled from the spec: [str_append] lives in another translation unit;
    section 4.3 has the message composed by putting one text after the
    other.  [len] bytes of [src] (its C-string length when [len] is 0)
    are put behind the C string held by [dst] and a terminator is written
    after them. *)
Definition str_append (src : string) (len : nat) (dst : option string) : string :=
  let src_len := if Nat.eqb len 0 then strlen src else len in
  let old := match dst with Some d => c_str d | None => EmptyString end in
  old ++ take src_len src ++ String NUL EmptyString.

End CStr.

Import CStr.

(** ** Status trimming, lines 70-74 of [execute_cmd] *)

Definition max_status : nat := 60.

(** [const char ellipsis[] = "..."]: three dots and the terminator, so
    [sizeof(ellipsis)] is 4. *)
Definition ellipsis : string := "..." ++ String NUL EmptyString.
Definition sizeof_ellipsis : nat := String.length ellipsis.

(** [if (strlen(msg) > max_status) memcpy(msg + max_status - sizeof(ellipsis),
    ellipsis, sizeof(ellipsis));] *)
Definition trim_status (msg : string) : string :=
  if Nat.ltb max_status (strlen msg)
  then memcpy msg (max_status - sizeof_ellipsis) ellipsis
  else msg.

(** What [info_update(info_status, "%s", msg)] receives after the trimming. *)
Definition published (msg : string) : string := c_str (trim_status msg).

(** ** Formatting done by libc *)

(** [(int)n] for a [size_t] value: reduction into the 32-bit signed range. *)
Definition cast_int (n : Z) : Z := (n + 2 ^ 31) mod 2 ^ 32 - 2 ^ 31.

(** The values an [int] holds. *)
Definition int_range (z : Z) : Prop := (- 2 ^ 31 <= z < 2 ^ 31)%Z.

(** [printf("%.*s", prec, data)]: the characters up to the terminator, and
    no more than [prec] of them; a negative precision counts as none given. *)
Definition fmt_prec_s (prec : Z) (data : string) : string :=
  if (prec <? 0)%Z then c_str data else take (Z.to_nat prec) (c_str data).

Definition digit_char (d : Z) : ascii := ascii_of_nat (48 + Z.to_nat d).

(** The digits of [n], least significant first, each put in front of what
    is already there; [fuel] bounds their number (10 for a 32-bit value). *)
Fixpoint utoa (fuel : nat) (n : Z) (acc : string) : string :=
  match fuel with
  | O => acc
  | S fuel' =>
      let acc' := String (digit_char (n mod 10)) acc in
      if (n / 10 =? 0)%Z then acc' else utoa fuel' (n / 10) acc'
  end.

(** [printf("%d", rc)] *)
Definition fmt_d (rc : Z) : string :=
  if (rc <? 0)%Z then String "-" (utoa 10 (- rc) EmptyString)
  else utoa 10 rc EmptyString.

(** [snprintf(buf, n, ...)] of an already formatted text: at most [n - 1]
    characters are stored, then the terminator. *)
Definition snprintf (n : nat) (formatted : string) : string :=
  take (n - 1) formatted ++ String NUL EmptyString.

(** Reading decimal text back: the number denoted by a run of digits. *)
Definition digit_value (c : ascii) : Z := Z.of_nat (nat_of_ascii c) - 48.

Definition is_digit (c : ascii) : bool :=
  (48 <=? nat_of_ascii c)%nat && (nat_of_ascii c <=? 57)%nat.

Fixpoint digits_value (s : string) (acc : Z) : Z :=
  match s with
  | EmptyString => acc
  | String c rest => digits_value rest (10 * acc + digit_value c)
  end.

Fixpoint all_digits (s : string) : bool :=
  match s with
  | EmptyString => true
  | String c rest => is_digit c && all_digits rest
  end.

(** The digits of a numeral: what follows its minus sign, if it has one. *)
Definition numeral_body (s : string) : string :=
  match s with
  | EmptyString => EmptyString
  | String c rest => if Ascii.eqb c "-" then rest else s
  end.

Definition is_negative (s : string) : bool :=
  match s with
  | EmptyString => false
  | String c _ => Ascii.eqb c "-"
  end.

(** A decimal numeral without leading zeros: an optional minus sign, then
    at least one digit, the first of them not ["0"]. *)
Definition decimal_no_leading_zero (s : string) : bool :=
  match numeral_body s with
  | EmptyString => false
  | String c _ => negb (Ascii.eqb c "0") && all_digits (numeral_body s)
  end.

Definition decimal_value (s : string) : Z :=
  if is_negative s then (- digits_value (numeral_body s) 0)%Z
  else digits_value (numeral_body s) 0.

(** ** Data of the program *)

(** [struct image]: the two fields this file reads. *)
Record image : Type := { source : string; marked : bool }.

(** [enum action_type]; [action_other] stands for every enumerator the
    switch of [mode_handle] leaves to its [default] branch. *)
Inductive action_type : Type :=
| action_info
| action_status
| action_fullscreen
| action_mode
| action_exec
| action_mark
| action_exec_marked
| action_help
| action_exit
| action_other (id : nat).

(** [struct action] *)
Record action : Type := { type : action_type; params : string }.

(** [struct array] of bytes: [data], with [size] its length. *)
Definition array : Type := string.
Definition size (a : array) : nat := String.length a.

Definition keybind : Type := string.

(** [struct mode]: the three handlers used here.  [get_current] gives the
    position of the current image in the image list; [handle_action] is the
    answer of the mode's own handler, whose work stays outside this file. *)
Record mode : Type := {
  get_current : nat;
  get_keybinds : list keybind;
  handle_action : action -> bool
}.

(** What the other translation units and libc provide. *)
Record externals : Type := {
  SHELLCMD_TIMEOUT : Z;
  shellcmd_expr : string -> list string -> option string;
  shellcmd_exec : string -> Z * option array * option array;
  strerror : Z -> string;
  action_typename : action -> string;
  (** whether [malloc] of that many bytes succeeds *)
  malloc_ok : nat -> bool
}.

(** Calls that leave this file, in the order they are made. *)
Inductive event : Type :=
| EvInfoSwitch (name : string)
| EvInfoUpdateStatus (text : string)
| EvInfoUpdateMark (m : bool)
| EvAppRedraw
| EvToggleFullscreen
| EvAppSwitchMode (name : string)
| EvAppExit (code : Z)
| EvShellcmdExpr (expr : string) (paths : list string)
| EvShellcmdExec (cmd : string)
| EvStdout (text : string)
| EvStderr (text : string)
| EvHelpShow (keys : list keybind)
| EvHelpHide
| EvImageToggleMarked (pos : nat)
| EvModeHandleAction (a : action).

(** The state the calls act on. *)
Record world : Type := {
  imglist : list image;
  help_shown : bool;
  log : list event
}.

(** ** A state monad with failure *)

(** [None] is a run that dereferences a missing image. *)
Definition M (A : Type) : Type := world -> option (A * world).

Definition ret {A : Type} (a : A) : M A := fun w => Some (a, w).

Definition bind {A B : Type} (c : M A) (k : A -> M B) : M B :=
  fun w => match c w with
           | Some (a, w') => k a w'
           | None => None
           end.

Notation "x <- c ;; k" := (bind c (fun x => k))
  (at level 61, c at next level, right associativity).
Notation "c ;; k" := (bind c (fun _ => k))
  (at level 61, right associativity).

(** The world after the calls [evs] were made. *)
Definition append_log (w : world) (evs : list event) : world :=
  {| imglist := imglist w; help_shown := help_shown w; log := log w ++ evs |}.

Definition emit (e : event) : M unit := fun w => Some (tt, append_log w [e]).

Definition app_redraw : M unit := emit EvAppRedraw.

(** [info_update(info_status, fmt, ...)], given the formatted text. *)
Definition info_update_status (text : string) : M unit :=
  emit (EvInfoUpdateStatus text).

Definition help_visible : M bool := fun w => Some (help_shown w, w).

Definition set_help (b : bool) : M unit :=
  fun w => Some (tt, {| imglist := imglist w; help_shown := b; log := log w |}).

Definition help_hide : M unit := emit EvHelpHide ;; set_help false.

Definition help_show (keys : list keybind) : M unit :=
  emit (EvHelpShow keys) ;; set_help true.

(** [mode->get_current()], dereferenced. *)
Definition current_image (m : mode) : M image :=
  fun w => match nth_error (imglist w) (get_current m) with
           | Some img => Some (img, w)
           | None => None
           end.

Fixpoint toggle_at (pos : nat) (imgs : list image) : list image :=
  match imgs, pos with
  | [], _ => []
  | img :: rest, O => {| source := source img; marked := negb (marked img) |} :: rest
  | img :: rest, S pos' => img :: toggle_at pos' rest
  end.

(** [image_toggle_marked(mode->get_current())]: flips the flag and returns
    its new value. *)
Definition image_toggle_marked (m : mode) : M bool :=
  img <- current_image m ;;
  emit (EvImageToggleMarked (get_current m)) ;;
  (fun w => Some (negb (marked img),
                  {| imglist := toggle_at (get_current m) (imglist w);
                     help_shown := help_shown w;
                     log := log w |})).

(** ** [execute_cmd] *)

(** Lines 39-45: [fprintf(stdout, "%.*s", (int)out->size, out->data)]. *)
Definition mirror (ev : string -> event) (a : option array) : M unit :=
  match a with
  | Some bytes => emit (ev (fmt_prec_s (cast_int (Z.of_nat (size bytes))) bytes))
  | None => ret tt
  end.

(** Lines 47-69: the message for the outcome, as the heap buffer [msg]. *)
Definition status_message (E : externals) (cmd : string) (rc : Z)
    (out err : option array) : string :=
  if (rc =? 0)%Z then
    match out with
    | Some o => str_append o (size o) None
    | None => str_append cmd 0 (Some (str_dup "Success: "))
    end
  else if (rc =? SHELLCMD_TIMEOUT E)%Z then
    str_append cmd 0 (Some (str_dup "Child process timed out: "))
  else
    let desc := snprintf 256 ("Error " ++ fmt_d rc ++ ": ") in
    let msg := str_dup desc in
    match err with
    | Some e => str_append e (size e) (Some msg)
    | None =>
        match out with
        | Some o => str_append o (size o) (Some msg)
        | None => str_append (strerror E rc) 0 (Some msg)
        end
    end.

Definition execute_cmd (E : externals) (expr : string) (paths : list string)
    : M unit :=
  emit (EvShellcmdExpr expr paths) ;;
  match shellcmd_expr E expr paths with
  | None =>
      info_update_status "Error: no command to execute" ;;
      app_redraw
  | Some cmd =>
      emit (EvShellcmdExec cmd) ;;
      let '(rc, out, err) := shellcmd_exec E cmd in
      mirror EvStdout out ;;
      mirror EvStderr err ;;
      let msg := status_message E cmd rc out err in
      let msg := trim_status msg in
      info_update_status (c_str msg) ;;
      app_redraw
  end.

(** ** [collect_paths] *)

(** First loop, lines 88-93. *)
Fixpoint count_marked (imgs : list image) (paths_num : nat) : nat :=
  match imgs with
  | [] => paths_num
  | img :: rest =>
      count_marked rest (if marked img then S paths_num else paths_num)
  end.

(** Second loop, lines 103-109: [paths] holds what is stored before
    [next_path]. *)
Fixpoint fill_paths (imgs : list image) (paths : list string) : list string :=
  match imgs with
  | [] => paths
  | img :: rest =>
      fill_paths rest (if marked img then paths ++ [source img] else paths)
  end.

(** The size of one entry of [paths], a pointer. *)
Definition sizeof_ptr : nat := 8.

(** [None] is the [NULL] result; a list is the array up to its [NULL]
    entry. *)
Definition collect_paths (E : externals) : M (option (list string)) :=
  fun w =>
    let paths_num := count_marked (imglist w) 0 in
    if Nat.eqb paths_num 0 then Some (None, w)
    else if negb (malloc_ok E ((paths_num + 1) * sizeof_ptr)) then Some (None, w)
    else Some (Some (fill_paths (imglist w) []), w).

(** ** [mode_handle] *)

Definition mode_handle (E : externals) (m : mode) (a : action) : M unit :=
  match type a with
  | action_info =>
      emit (EvInfoSwitch (params a)) ;;
      app_redraw
  | action_status =>
      info_update_status (c_str (params a)) ;;
      app_redraw
  | action_fullscreen => emit EvToggleFullscreen
  | action_mode => emit (EvAppSwitchMode (params a))
  | action_exec =>
      img <- current_image m ;;
      execute_cmd E (params a) [source img]
  | action_mark =>
      b <- image_toggle_marked m ;;
      emit (EvInfoUpdateMark b) ;;
      app_redraw
  | action_exec_marked =>
      paths <- collect_paths E ;;
      match paths with
      | Some ps => execute_cmd E (params a) ps
      | None => ret tt
      end
  | action_help =>
      v <- help_visible ;;
      (if v then help_hide else help_show (get_keybinds m)) ;;
      app_redraw
  | action_exit =>
      v <- help_visible ;;
      if v then help_hide ;; app_redraw else emit (EvAppExit 0)
  | action_other _ =>
      emit (EvModeHandleAction a) ;;
      if handle_action m a then ret tt
      else
        info_update_status ("Unhandled action: " ++ c_str (action_typename E a)) ;;
        app_redraw
  end.

(** ** Reading the log *)

Definition is_redraw (e : event) : bool :=
  match e with EvAppRedraw => true | _ => false end.

Definition is_exec (e : event) : bool :=
  match e with EvShellcmdExec _ => true | _ => false end.

Definition redraws (l : list event) : nat := List.length (filter is_redraw l).

(** The size of a captured stream is a value of [int]. *)
Definition fits_int (a : option array) : Prop :=
  match a with
  | Some bytes => (Z.of_nat (size bytes) < 2 ^ 31)%Z
  | None => True
  end.

(** The paths of the marked images, in list order. *)
Definition marked_sources (imgs : list image) : list string :=
  map source (filter marked imgs).

(** The log grew by the calls just made, among them at most one redraw. *)
Ltac log_extended :=
  eexists; simpl; rewrite <- ?app_assoc;
  split; [reflexivity | unfold redraws; simpl; lia].

Ltac log_unchanged :=
  exists []; rewrite app_nil_r;
  split; [reflexivity | unfold redraws; simpl; lia].

(** ** Concrete surroundings used by the examples *)

Definition demo_externals (fail_alloc : bool) (outcome : Z * option array * option array)
    : externals :=
  {| SHELLCMD_TIMEOUT := 256;
     shellcmd_expr := fun expr paths =>
       match expr with
       | EmptyString => None
       | _ => Some (expr ++ " " ++ String.concat " " paths)
       end;
     shellcmd_exec := fun _ => outcome;
     strerror := fun _ => "Operation not permitted";
     action_typename := fun _ => "zoom";
     malloc_ok := fun _ => negb fail_alloc |}.

Definition demo_mode : mode :=
  {| get_current := 0; get_keybinds := ["q: exit"]; handle_action := fun _ => false |}.

Definition demo_world (imgs : list image) : world :=
  {| imglist := imgs; help_shown := false; log := [] |}.

Definition img_a : image := {| source := "/tmp/a.png"; marked := true |}.
Definition img_b : image := {| source := "/tmp/b.png"; marked := false |}.
Definition img_c : image := {| source := "/tmp/c.png"; marked := true |}.

(** 61 and 70 characters. *)
Definition text61 : string :=
  "0123456789012345678901234567890123456789012345678901234567890".
Definition text70 : string :=
  "0123456789012345678901234567890123456789012345678901234567890123456789".

Definition demo_ok : externals := demo_externals false (0%Z, None, None).

Definition set_status_70 : action := {| type := action_status; params := text70 |}.
Definition exec_marked_identify : action :=
  {| type := action_exec_marked; params := "identify" |}.
Definition toggle_help : action := {| type := action_help; params := EmptyString |}.

(** Three captured bytes, the second of them the terminator. *)
Definition bytes_a0b : array := String "a" (String NUL "b").

(** Two captured bytes, the first of them the terminator. *)
Definition bytes_0b : array := String NUL "b".


(** ** Further readers of the log *)

Definition is_status (e : event) : bool :=
  match e with EvInfoUpdateStatus _ => true | _ => false end.

Definition is_expr (e : event) : bool :=
  match e with EvShellcmdExpr _ _ => true | _ => false end.

Definition is_exit (e : event) : bool :=
  match e with EvAppExit _ => true | _ => false end.

Definition is_mode_call (e : event) : bool :=
  match e with EvModeHandleAction _ => true | _ => false end.

(** The calls made between building the command and setting the status:
    the execution of the child and the copies of its output. *)
Definition is_child_event (e : event) : bool :=
  match e with
  | EvShellcmdExec _ | EvStdout _ | EvStderr _ => true
  | _ => false
  end.

(** The calls [execute_cmd] can make. *)
Definition is_command_event (e : event) : bool :=
  is_expr e || is_child_event e || is_status e || is_redraw e.

(** The nine action types [mode_handle] serves itself. *)
Definition is_builtin (t : action_type) : bool :=
  match t with action_other _ => false | _ => true end.

(** The two action types that run a shell command. *)
Definition runs_command (t : action_type) : bool :=
  match t with action_exec | action_exec_marked => true | _ => false end.

(** The action types whose branch sets the status line. *)
Definition sets_status (t : action_type) : bool :=
  match t with
  | action_status | action_exec | action_exec_marked | action_other _ => true
  | _ => false
  end.

(** A dispatch that returned: the world it left and the calls it made. *)
Definition dispatches (E : externals) (m : mode) (a : action)
    (w w' : world) (evs : list event) : Prop :=
  mode_handle E m a w = Some (tt, w') /\ log w' = (log w ++ evs)%list.

Definition do_mark : action := {| type := action_mark; params := EmptyString |}.
Definition do_exit : action := {| type := action_exit; params := EmptyString |}.
Definition do_exec (expr : string) : action :=
  {| type := action_exec; params := expr |}.
Definition do_other : action := {| type := action_other 0; params := EmptyString |}.

(** The handlers of [demo_mode], with another image as the current one. *)
Definition demo_mode_at (pos : nat) : mode :=
  {| get_current := pos; get_keybinds := ["q: exit"]; handle_action := fun _ => false |}.

(** * Properties *)

(** ** C strings *)

Section CStrFacts.

Lemma append_empty_r (s : string) : s ++ EmptyString = s.
Proof. induction s as [|c s IH]; simpl; [reflexivity | now rewrite IH]. Qed.

Lemma append_assoc (a b c : string) : (a ++ b) ++ c = a ++ (b ++ c).
Proof. induction a as [|x a IH]; simpl; [reflexivity | now rewrite IH]. Qed.

Lemma length_append (a b : string) :
  String.length (a ++ b) = String.length a + String.length b.
Proof. induction a as [|x a IH]; simpl; [reflexivity | now rewrite IH]. Qed.

Lemma c_str_no_nul (s : string) : no_nul s = true -> c_str s = s.
Proof.
  induction s as [|c s IH]; simpl; [reflexivity |].
  destruct (Ascii.eqb c NUL); simpl; [discriminate |].
  intros H. now rewrite IH.
Qed.

Lemma no_nul_c_str (s : string) : no_nul (c_str s) = true.
Proof.
  induction s as [|c s IH]; simpl; [reflexivity |].
  destruct (Ascii.eqb c NUL) eqn:Hc; simpl; [reflexivity |].
  now rewrite Hc, IH.
Qed.

Lemma no_nul_append (a b : string) :
  no_nul (a ++ b) = no_nul a && no_nul b.
Proof.
  induction a as [|x a IH]; simpl; [reflexivity |].
  now rewrite IH, andb_assoc.
Qed.

Lemma c_str_append (a b : string) :
  no_nul a = true -> c_str (a ++ b) = a ++ c_str b.
Proof.
  induction a as [|x a IH]; simpl; [reflexivity |].
  destruct (Ascii.eqb x NUL); simpl; [discriminate |].
  intros H. now rewrite IH.
Qed.

Lemma c_str_terminated (s rest : string) :
  c_str (s ++ String NUL rest) = c_str s.
Proof.
  induction s as [|c s IH]; simpl; [reflexivity |].
  destruct (Ascii.eqb c NUL); [reflexivity | now rewrite IH].
Qed.

Lemma strlen_c_str (s : string) : strlen s = String.length (c_str s).
Proof.
  induction s as [|c s IH]; simpl; [reflexivity |].
  destruct (Ascii.eqb c NUL); simpl; [reflexivity | now rewrite IH].
Qed.

Lemma strlen_le_length (s : string) : strlen s <= String.length s.
Proof.
  induction s as [|c s IH]; simpl; [lia |].
  destruct (Ascii.eqb c NUL); lia.
Qed.

Lemma take_strlen (s : string) : take (strlen s) s = c_str s.
Proof.
  induction s as [|c s IH]; simpl; [reflexivity |].
  destruct (Ascii.eqb c NUL); simpl; [reflexivity | now rewrite IH].
Qed.

Lemma take_all (s : string) : take (String.length s) s = s.
Proof. induction s as [|c s IH]; simpl; [reflexivity | now rewrite IH]. Qed.

Lemma take_beyond (n : nat) (s : string) :
  String.length s <= n -> take n s = s.
Proof.
  revert n; induction s as [|c s IH]; intros [|n]; simpl; intros H;
    try reflexivity; try lia.
  rewrite IH; [reflexivity | lia].
Qed.

Lemma length_take (n : nat) (s : string) :
  n <= String.length s -> String.length (take n s) = n.
Proof.
  revert s; induction n as [|n IH]; intros [|c s]; simpl; intros H;
    try reflexivity; try lia.
  rewrite IH; [reflexivity | lia].
Qed.

Lemma length_take_le (n : nat) (s : string) : String.length (take n s) <= n.
Proof.
  revert s; induction n as [|n IH]; intros [|c s]; simpl; try lia.
  specialize (IH s); lia.
Qed.

Lemma no_nul_take (n : nat) (s : string) :
  n <= strlen s -> no_nul (take n s) = true.
Proof.
  revert s; induction n as [|n IH]; intros [|c s]; simpl; try reflexivity.
  destruct (Ascii.eqb c NUL); simpl; intros H; [lia |].
  apply IH; lia.
Qed.

Lemma take_c_str (n : nat) (s : string) :
  n <= strlen s -> take n (c_str s) = take n s.
Proof.
  revert s; induction n as [|n IH]; intros [|c s]; simpl; try reflexivity.
  destruct (Ascii.eqb c NUL); simpl; intros H; [lia |].
  rewrite IH; [reflexivity | lia].
Qed.

(** Inside the buffer, [memcpy] splices [src] between what was before the
    offset and what lies behind the copied bytes. *)
Lemma memcpy_splice (dst src : string) (off : nat) :
  off + String.length src <= String.length dst ->
  memcpy dst off src = take off dst ++ src ++ drop (off + String.length src) dst.
Proof.
  revert off src; induction dst as [|c dst IH]; intros off src H.
  - simpl in H. destruct off; [| lia]. destruct src; simpl in *; [reflexivity | lia].
  - destruct off as [|off].
    + destruct src as [|x src]; [reflexivity |].
      simpl in *. rewrite (IH 0 src) by lia. reflexivity.
    + simpl in *. rewrite (IH off src) by lia. reflexivity.
Qed.

Lemma c_str_str_dup (s : string) : c_str (str_dup s) = c_str s.
Proof.
  unfold str_dup. rewrite c_str_terminated.
  apply c_str_no_nul, no_nul_c_str.
Qed.

(** With [len] either 0 or the size of [src], the appended text is [src]
    read as a C string. *)
Lemma c_str_str_append (src : string) (len : nat) (dst : option string) :
  len = 0 \/ len = String.length src ->
  c_str (str_append src len dst)
  = match dst with Some d => c_str d | None => EmptyString end ++ c_str src.
Proof.
  intros Hlen. unfold str_append.
  assert (Hsrc : c_str (take (if Nat.eqb len 0 then strlen src else len) src
                        ++ String NUL EmptyString) = c_str src).
  { rewrite c_str_terminated.
    destruct (Nat.eqb len 0) eqn:E.
    - rewrite take_strlen. apply c_str_no_nul, no_nul_c_str.
    - destruct Hlen as [-> | ->]; [discriminate | now rewrite take_all]. }
  destruct dst as [d|].
  - rewrite c_str_append by apply no_nul_c_str. now rewrite Hsrc.
  - simpl. exact Hsrc.
Qed.

End CStrFacts.

(** ** The trimming *)

Section Trimming.

Lemma trim_status_long (msg : string) :
  max_status < strlen msg ->
  trim_status msg = take 56 msg ++ ellipsis ++ drop 60 msg.
Proof.
  intros H. unfold trim_status.
  apply Nat.ltb_lt in H as Hb. rewrite Hb.
  pose proof (strlen_le_length msg) as Hle.
  unfold max_status in *.
  rewrite memcpy_splice; [reflexivity |].
  change (String.length ellipsis) with 4. simpl. lia.
Qed.

Lemma published_long (msg : string) :
  max_status < strlen msg -> published msg = take 56 msg ++ "...".
Proof.
  intros H. unfold published. rewrite (trim_status_long msg H).
  unfold max_status in H.
  rewrite c_str_append by (apply no_nul_take; lia).
  reflexivity.
Qed.

Lemma published_short (msg : string) :
  strlen msg <= max_status -> published msg = c_str msg.
Proof.
  intros H. unfold published, trim_status.
  apply Nat.ltb_ge in H. now rewrite H.
Qed.

Lemma length_published (msg : string) :
  String.length (published msg) <= max_status.
Proof.
  destruct (Nat.ltb max_status (strlen msg)) eqn:E.
  - apply Nat.ltb_lt in E. rewrite (published_long msg E).
    rewrite length_append. pose proof (length_take_le 56 msg).
    change (String.length "...") with 3. unfold max_status. lia.
  - apply Nat.ltb_ge in E. rewrite (published_short msg E).
    now rewrite <- strlen_c_str.
Qed.

(** C1, as the code has it: a message of more than 60 characters is
    published as its first 56 characters followed by ["..."], 59 characters
    in all (the fourth byte copied from [ellipsis] is the terminator, stored
    at offset 59); a message of 60 characters or fewer is published as it
    is. *)
Theorem trim_status_published (msg : string) :
  published msg
  = (if Nat.ltb 60 (strlen msg) then take 56 (c_str msg) ++ "..." else c_str msg)
  /\ String.length (published msg)
     = (if Nat.ltb 60 (strlen msg) then 59 else strlen msg).
Proof.
  destruct (Nat.ltb 60 (strlen msg)) eqn:E.
  - apply Nat.ltb_lt in E. rewrite (published_long msg E).
    rewrite take_c_str by lia. split; [reflexivity |].
    rewrite length_append, length_take; [reflexivity |].
    pose proof (strlen_le_length msg). lia.
  - apply Nat.ltb_ge in E. rewrite (published_short msg E). split; [reflexivity |].
    now rewrite <- strlen_c_str.
Qed.

(** C1 as written fails on a message of 61 characters: what is published
    has 59 characters, not 60, and is not the first 57 characters followed
    by ["..."]. *)
Lemma trim_status_61_is_not_57_dots :
  strlen (str_dup text61) = 61
  /\ String.length (published (str_dup text61)) <> 60
  /\ published (str_dup text61) <> take 57 (c_str (str_dup text61)) ++ "...".
Proof.
  split; [reflexivity |].
  split; [vm_compute; discriminate |].
  intros H. apply (f_equal String.length) in H. vm_compute in H. discriminate.
Qed.

End Trimming.

(** ** Decimal formatting *)

Section Decimal.

Local Open Scope Z_scope.

Lemma digit_char_code (d : Z) :
  0 <= d <= 9 -> nat_of_ascii (digit_char d) = (48 + Z.to_nat d)%nat.
Proof.
  intros H. unfold digit_char. apply nat_ascii_embedding. lia.
Qed.

Lemma digit_value_char (d : Z) : 0 <= d <= 9 -> digit_value (digit_char d) = d.
Proof.
  intros H. unfold digit_value. rewrite digit_char_code by exact H. lia.
Qed.

Lemma is_digit_char (d : Z) : 0 <= d <= 9 -> is_digit (digit_char d) = true.
Proof.
  intros H. unfold is_digit. rewrite digit_char_code by exact H.
  apply andb_true_intro; split; apply Nat.leb_le; lia.
Qed.

Lemma ascii_eqb_code (c : ascii) (k : nat) :
  (k < 256)%nat -> nat_of_ascii c <> k -> Ascii.eqb c (ascii_of_nat k) = false.
Proof.
  intros Hk Hne. apply Ascii.eqb_neq. intros ->.
  apply Hne. now apply nat_ascii_embedding.
Qed.

Lemma digit_is_not (c : ascii) (k : nat) :
  is_digit c = true -> (k < 48)%nat -> Ascii.eqb c (ascii_of_nat k) = false.
Proof.
  intros Hd Hk. unfold is_digit in Hd.
  apply andb_true_iff in Hd as [Hlo _]. apply Nat.leb_le in Hlo.
  apply ascii_eqb_code; lia.
Qed.

Lemma digit_not_nul (c : ascii) : is_digit c = true -> Ascii.eqb c NUL = false.
Proof. intros H. exact (digit_is_not c 0 H ltac:(lia)). Qed.

Lemma digit_not_minus (c : ascii) : is_digit c = true -> Ascii.eqb c "-" = false.
Proof. intros H. exact (digit_is_not c 45 H ltac:(lia)). Qed.

Lemma all_digits_no_nul (s : string) : all_digits s = true -> no_nul s = true.
Proof.
  induction s as [|c s IH]; cbn [all_digits no_nul]; [reflexivity |].
  intros H. apply andb_true_iff in H as [Hc Hs].
  now rewrite (digit_not_nul c Hc), IH.
Qed.

Lemma mod10_digit (n : Z) : 0 <= n mod 10 <= 9.
Proof. pose proof (Z.mod_pos_bound n 10 ltac:(lia)). lia. Qed.

Lemma utoa_step (fuel : nat) (n : Z) (acc : string) :
  utoa (S fuel) n acc
  = if n / 10 =? 0 then String (digit_char (n mod 10)) acc
    else utoa fuel (n / 10) (String (digit_char (n mod 10)) acc).
Proof. reflexivity. Qed.

(** The digits go in front of the accumulator. *)
Lemma utoa_acc (fuel : nat) (n : Z) (acc : string) :
  utoa fuel n acc = (utoa fuel n EmptyString ++ acc)%string.
Proof.
  revert n acc; induction fuel as [|fuel IH]; intros n acc; [reflexivity |].
  rewrite !utoa_step.
  destruct (n / 10 =? 0); [reflexivity |].
  rewrite (IH (n / 10) (String _ acc)), (IH (n / 10) (String _ EmptyString)).
  now rewrite append_assoc.
Qed.

Lemma utoa_length (fuel : nat) (n : Z) (acc : string) :
  (String.length (utoa fuel n acc) <= fuel + String.length acc)%nat.
Proof.
  revert n acc; induction fuel as [|fuel IH]; intros n acc.
  - cbn [utoa]. lia.
  - rewrite utoa_step.
    destruct (n / 10 =? 0); cbn [String.length]; [lia |].
    specialize (IH (n / 10) (String (digit_char (n mod 10)) acc)).
    cbn [String.length] in IH. lia.
Qed.

Lemma utoa_all_digits (fuel : nat) (n : Z) (acc : string) :
  all_digits acc = true -> all_digits (utoa fuel n acc) = true.
Proof.
  revert n acc; induction fuel as [|fuel IH]; intros n acc Hacc; [exact Hacc |].
  rewrite utoa_step.
  assert (Hstep : all_digits (String (digit_char (n mod 10)) acc) = true).
  { cbn [all_digits]. now rewrite (is_digit_char _ (mod10_digit n)), Hacc. }
  destruct (n / 10 =? 0); [exact Hstep | now apply IH].
Qed.

Lemma digits_value_append (s t : string) (acc : Z) :
  digits_value (s ++ t) acc = digits_value t (digits_value s acc).
Proof.
  revert acc; induction s as [|c s IH]; intros acc; [reflexivity |].
  cbn [append digits_value]. apply IH.
Qed.

(** Enough fuel for the magnitude: the digits denote the number. *)
Lemma utoa_value (fuel : nat) (n : Z) :
  0 <= n < 10 ^ Z.of_nat fuel -> digits_value (utoa fuel n EmptyString) 0 = n.
Proof.
  revert n; induction fuel as [|fuel IH]; intros n Hn.
  - change (10 ^ Z.of_nat 0) with 1 in Hn. cbn [utoa digits_value]. lia.
  - rewrite Nat2Z.inj_succ, Z.pow_succ_r in Hn by lia.
    rewrite utoa_step. pose proof (mod10_digit n) as Hd.
    pose proof (Z.div_mod n 10 ltac:(lia)) as Hdm.
    destruct (n / 10 =? 0) eqn:E.
    + apply Z.eqb_eq in E. cbn [digits_value].
      rewrite digit_value_char by exact Hd. lia.
    + rewrite utoa_acc, digits_value_append. cbn [digits_value].
      rewrite IH.
      * rewrite digit_value_char by exact Hd. lia.
      * split; [apply Z.div_pos; lia |].
        apply Z.div_lt_upper_bound; lia.
Qed.

(** The first digit of a positive number is not ["0"]. *)
Lemma utoa_head (fuel : nat) (n : Z) :
  0 < n < 10 ^ Z.of_nat fuel ->
  exists c s, utoa fuel n EmptyString = String c s /\ Ascii.eqb c "0" = false.
Proof.
  revert n; induction fuel as [|fuel IH]; intros n Hn.
  - change (10 ^ Z.of_nat 0) with 1 in Hn. lia.
  - rewrite Nat2Z.inj_succ, Z.pow_succ_r in Hn by lia.
    rewrite utoa_step. pose proof (mod10_digit n) as Hd.
    pose proof (Z.div_mod n 10 ltac:(lia)) as Hdm.
    destruct (n / 10 =? 0) eqn:E.
    + apply Z.eqb_eq in E. eexists _, _. split; [reflexivity |].
      change "0"%char with (ascii_of_nat 48).
      apply ascii_eqb_code; [lia |].
      rewrite digit_char_code by exact Hd. lia.
    + apply Z.eqb_neq in E.
      destruct (IH (n / 10)) as (c & s & Hcs & Hc).
      * split; [| apply Z.div_lt_upper_bound; lia].
        pose proof (Z.div_pos n 10 ltac:(lia) ltac:(lia)). lia.
      * rewrite utoa_acc, Hcs. cbn [append].
        eexists _, _. split; [reflexivity | exact Hc].
Qed.

Lemma int_magnitude (rc : Z) : int_range rc -> Z.abs rc < 10 ^ Z.of_nat 10.
Proof. unfold int_range. change (10 ^ Z.of_nat 10) with 10000000000. lia. Qed.

Lemma fmt_d_length (rc : Z) : (String.length (fmt_d rc) <= 11)%nat.
Proof.
  unfold fmt_d. destruct (rc <? 0); cbn [String.length].
  - pose proof (utoa_length 10 (- rc) EmptyString) as H.
    cbn [String.length] in H. lia.
  - pose proof (utoa_length 10 rc EmptyString) as H.
    cbn [String.length] in H. lia.
Qed.

Lemma fmt_d_no_nul (rc : Z) : no_nul (fmt_d rc) = true.
Proof.
  unfold fmt_d. destruct (rc <? 0).
  - cbn [no_nul]. apply andb_true_intro. split; [reflexivity |].
    apply all_digits_no_nul, utoa_all_digits. reflexivity.
  - apply all_digits_no_nul, utoa_all_digits. reflexivity.
Qed.

Lemma decimal_value_minus (s : string) :
  decimal_value (String "-" s) = - digits_value s 0.
Proof. reflexivity. Qed.

Lemma decimal_shape_minus (c : ascii) (s : string) :
  decimal_no_leading_zero (String "-" (String c s))
  = negb (Ascii.eqb c "0") && all_digits (String c s).
Proof. reflexivity. Qed.

Lemma decimal_value_plain (c : ascii) (s : string) :
  Ascii.eqb c "-" = false ->
  decimal_value (String c s) = digits_value (String c s) 0.
Proof.
  intros H. unfold decimal_value, is_negative, numeral_body. now rewrite H.
Qed.

Lemma decimal_shape_plain (c : ascii) (s : string) :
  Ascii.eqb c "-" = false ->
  decimal_no_leading_zero (String c s)
  = negb (Ascii.eqb c "0") && all_digits (String c s).
Proof.
  intros H. unfold decimal_no_leading_zero, numeral_body. now rewrite H.
Qed.

(** [%d] of a nonzero [int]: the numeral reads back as the number and has
    no leading zero. *)
Lemma fmt_d_decimal (rc : Z) :
  int_range rc -> rc <> 0 ->
  decimal_value (fmt_d rc) = rc /\ decimal_no_leading_zero (fmt_d rc) = true.
Proof.
  intros Hr Hnz. pose proof (int_magnitude rc Hr) as Hm.
  unfold fmt_d. destruct (rc <? 0) eqn:E.
  - apply Z.ltb_lt in E.
    destruct (utoa_head 10 (- rc)) as (c & s & Hcs & Hc); [lia |].
    assert (Hall : all_digits (utoa 10 (- rc) EmptyString) = true)
      by (apply utoa_all_digits; reflexivity).
    rewrite decimal_value_minus, utoa_value by lia.
    split; [lia |].
    rewrite Hcs in Hall |- *. now rewrite decimal_shape_minus, Hc, Hall.
  - apply Z.ltb_ge in E.
    destruct (utoa_head 10 rc) as (c & s & Hcs & Hc); [lia |].
    assert (Hall : all_digits (utoa 10 rc EmptyString) = true)
      by (apply utoa_all_digits; reflexivity).
    assert (Hval : digits_value (utoa 10 rc EmptyString) 0 = rc)
      by (apply utoa_value; lia).
    rewrite Hcs in Hall, Hval |- *.
    assert (Hminus : Ascii.eqb c "-" = false).
    { apply digit_not_minus. cbn [all_digits] in Hall.
      now apply andb_true_iff in Hall as [Hd _]. }
    rewrite (decimal_value_plain c s Hminus), (decimal_shape_plain c s Hminus).
    now rewrite Hval, Hc, Hall.
Qed.

End Decimal.

(** ** Runs of [execute_cmd] *)

Section ExecuteCmd.

Variable E : externals.

Lemma append_log_app (w : world) (a b : list event) :
  append_log (append_log w a) b = append_log w (a ++ b).
Proof. unfold append_log; simpl. now rewrite <- app_assoc. Qed.

Lemma append_log_nil (w : world) : append_log w [] = w.
Proof. destruct w; unfold append_log; simpl. now rewrite app_nil_r. Qed.

Lemma bind_emit {B : Type} (e : event) (k : M B) (w : world) :
  (emit e ;; k) w = k (append_log w [e]).
Proof. reflexivity. Qed.

Lemma fmt_prec_s_fits (bytes : array) :
  (Z.of_nat (size bytes) < 2 ^ 31)%Z ->
  fmt_prec_s (cast_int (Z.of_nat (size bytes))) bytes = c_str bytes.
Proof.
  intros H. unfold fmt_prec_s, cast_int.
  assert (Hc : ((Z.of_nat (size bytes) + 2 ^ 31) mod 2 ^ 32 - 2 ^ 31
                = Z.of_nat (size bytes))%Z).
  { rewrite Z.mod_small; lia. }
  rewrite Hc.
  destruct (Z.ltb_spec (Z.of_nat (size bytes)) 0) as [Hneg | _]; [lia |].
  rewrite Nat2Z.id. apply take_beyond.
  rewrite <- strlen_c_str. apply strlen_le_length.
Qed.

(** What [mirror] adds to the log. *)
Lemma mirror_run (ev : string -> event) (a : option array) (w : world) :
  mirror ev a w
  = Some (tt, append_log w
                match a with
                | Some bytes => [ev (fmt_prec_s (cast_int (Z.of_nat (size bytes))) bytes)]
                | None => []
                end).
Proof.
  destruct a as [bytes|]; simpl; [reflexivity |].
  unfold ret. now rewrite append_log_nil.
Qed.

(** A run in which no command could be built. *)
Lemma execute_cmd_no_command (expr : string) (paths : list string) (w : world) :
  shellcmd_expr E expr paths = None ->
  execute_cmd E expr paths w
  = Some (tt, append_log w [EvShellcmdExpr expr paths;
                            EvInfoUpdateStatus "Error: no command to execute";
                            EvAppRedraw]).
Proof.
  intros H. unfold execute_cmd. rewrite bind_emit, H.
  unfold info_update_status, app_redraw. rewrite bind_emit.
  unfold emit. now rewrite !append_log_app.
Qed.

(** A run in which the command was built and executed. *)
Lemma execute_cmd_command (expr : string) (paths : list string) (w : world)
    (cmd : string) (rc : Z) (out err : option array) :
  shellcmd_expr E expr paths = Some cmd ->
  shellcmd_exec E cmd = (rc, out, err) ->
  execute_cmd E expr paths w
  = Some (tt, append_log w
                ([EvShellcmdExpr expr paths; EvShellcmdExec cmd]
                 ++ match out with
                    | Some o => [EvStdout (fmt_prec_s (cast_int (Z.of_nat (size o))) o)]
                    | None => []
                    end
                 ++ match err with
                    | Some e => [EvStderr (fmt_prec_s (cast_int (Z.of_nat (size e))) e)]
                    | None => []
                    end
                 ++ [EvInfoUpdateStatus (published (status_message E cmd rc out err));
                     EvAppRedraw])).
Proof.
  intros Hcmd Hexec. unfold execute_cmd.
  rewrite bind_emit, Hcmd, bind_emit, Hexec.
  unfold bind at 1. rewrite mirror_run.
  unfold bind at 1. rewrite mirror_run.
  unfold info_update_status, app_redraw. rewrite bind_emit.
  unfold emit, published. rewrite !append_log_app.
  rewrite <- ?app_assoc. reflexivity.
Qed.

End ExecuteCmd.

(** ** The message for an outcome *)

Section StatusMessage.

Variable E : externals.

Lemma c_str_text (bytes : array) : no_nul bytes = true -> c_str bytes = bytes.
Proof. apply c_str_no_nul. Qed.

(** [str_append(data, size, &msg)] of a captured stream. *)
Lemma c_str_append_array (bytes : array) (dst : option string) :
  c_str (str_append bytes (size bytes) dst)
  = match dst with Some d => c_str d | None => EmptyString end ++ c_str bytes.
Proof. apply c_str_str_append. right. reflexivity. Qed.

(** [str_dup(literal, &msg); str_append(text, 0, &msg)] *)
Lemma c_str_dup_append (literal text : string) :
  c_str (str_append text 0 (Some (str_dup literal))) = c_str literal ++ c_str text.
Proof.
  rewrite c_str_str_append by (left; reflexivity).
  now rewrite c_str_str_dup.
Qed.

(** [desc] is large enough for ["Error %d: "]: nothing is cut. *)
Lemma c_str_desc (rc : Z) :
  c_str (snprintf 256 ("Error " ++ fmt_d rc ++ ": ")) = "Error " ++ fmt_d rc ++ ": ".
Proof.
  unfold snprintf. rewrite c_str_terminated.
  change (256 - 1) with 255.
  rewrite take_beyond.
  - apply c_str_no_nul. rewrite !no_nul_append, fmt_d_no_nul. reflexivity.
  - rewrite !length_append. pose proof (fmt_d_length rc).
    change (String.length "Error ") with 6. change (String.length ": ") with 2. lia.
Qed.

Lemma status_message_success (cmd : string) (out err : option array) :
  c_str (status_message E cmd 0 out err)
  = match out with
    | Some o => c_str o
    | None => "Success: " ++ c_str cmd
    end.
Proof.
  unfold status_message. change (0 =? 0)%Z with true. cbv iota.
  destruct out as [o|].
  - now rewrite c_str_append_array.
  - now rewrite c_str_dup_append.
Qed.

Lemma status_message_timeout (cmd : string) (out err : option array) :
  SHELLCMD_TIMEOUT E <> 0%Z ->
  c_str (status_message E cmd (SHELLCMD_TIMEOUT E) out err)
  = "Child process timed out: " ++ c_str cmd.
Proof.
  intros H. unfold status_message.
  apply Z.eqb_neq in H. rewrite H, Z.eqb_refl.
  now rewrite c_str_dup_append.
Qed.

Lemma status_message_failure (cmd : string) (rc : Z) (out err : option array) :
  rc <> 0%Z -> rc <> SHELLCMD_TIMEOUT E ->
  c_str (status_message E cmd rc out err)
  = "Error " ++ fmt_d rc ++ ": "
    ++ match err with
       | Some e => c_str e
       | None =>
           match out with
           | Some o => c_str o
           | None => c_str (strerror E rc)
           end
       end.
Proof.
  intros H0 Ht. unfold status_message.
  apply Z.eqb_neq in H0, Ht. rewrite H0, Ht.
  destruct err as [e|]; [| destruct out as [o|]].
  - rewrite c_str_append_array, c_str_str_dup, c_str_desc.
    now rewrite !append_assoc.
  - rewrite c_str_append_array, c_str_str_dup, c_str_desc.
    now rewrite !append_assoc.
  - rewrite c_str_dup_append, c_str_desc.
    now rewrite !append_assoc.
Qed.

(** C4, as the code has it: a child that exits with code 0 gives, before
    the trimming, the captured standard output read as a C string, that is
    its bytes up to the first terminator byte (all of them when it holds
    none), whenever such a stream was captured, and ["Success: "] followed
    by the command string when none was; the run publishes that message
    through the trimming. *)
Theorem success_status (expr : string) (paths : list string) (w : world)
    (cmd : string) (out err : option array) :
  shellcmd_expr E expr paths = Some cmd ->
  shellcmd_exec E cmd = (0%Z, out, err) ->
  c_str (status_message E cmd 0 out err)
  = match out with
    | Some o => c_str o
    | None => "Success: " ++ c_str cmd
    end
  /\ (forall o, out = Some o -> no_nul o = true ->
      c_str (status_message E cmd 0 out err) = o)
  /\ exists evs,
       execute_cmd E expr paths w
       = Some (tt, append_log w
                     (evs ++ [EvInfoUpdateStatus
                                (published (status_message E cmd 0 out err));
                              EvAppRedraw])).
Proof.
  intros Hcmd Hexec. split; [| split].
  - apply status_message_success.
  - intros o -> Hnn. rewrite status_message_success. now apply c_str_text.
  - rewrite (execute_cmd_command E expr paths w cmd 0 out err Hcmd Hexec).
    eexists. rewrite !app_assoc. reflexivity.
Qed.

(** C5, as the code has it: an unsuccessful run gives, before the
    trimming, ["Child process timed out: "] and the command string on a
    timeout, and otherwise ["Error c: "], with [c] the exit code as a
    decimal numeral without leading zeros, followed by the captured standard
    error when such a stream was captured, else by the captured standard
    output when that was, else by the description [strerror] gives for the
    code; a captured stream is read as a C string, up to its first
    terminator byte, which is all of it when it holds none.  The run
    publishes that message through the trimming. *)
Theorem failure_status (expr : string) (paths : list string) (w : world)
    (cmd : string) (rc : Z) (out err : option array) :
  shellcmd_expr E expr paths = Some cmd ->
  shellcmd_exec E cmd = (rc, out, err) ->
  int_range rc -> rc <> 0%Z ->
  c_str (status_message E cmd rc out err)
  = (if (rc =? SHELLCMD_TIMEOUT E)%Z
     then "Child process timed out: " ++ c_str cmd
     else "Error " ++ fmt_d rc ++ ": "
          ++ match err with
             | Some e => c_str e
             | None =>
                 match out with
                 | Some o => c_str o
                 | None => c_str (strerror E rc)
                 end
             end)
  /\ (forall bytes : array, no_nul bytes = true -> c_str bytes = bytes)
  /\ decimal_value (fmt_d rc) = rc
  /\ decimal_no_leading_zero (fmt_d rc) = true
  /\ exists evs,
       execute_cmd E expr paths w
       = Some (tt, append_log w
                     (evs ++ [EvInfoUpdateStatus
                                (published (status_message E cmd rc out err));
                              EvAppRedraw])).
Proof.
  intros Hcmd Hexec Hint Hnz.
  destruct (fmt_d_decimal rc Hint Hnz) as [Hval Hshape].
  split; [| split; [exact c_str_text | split; [exact Hval | split; [exact Hshape |]]]].
  - destruct (Z.eqb_spec rc (SHELLCMD_TIMEOUT E)) as [-> | Hne].
    + now apply status_message_timeout.
    + apply (status_message_failure cmd rc out err Hnz Hne).
  - rewrite (execute_cmd_command E expr paths w cmd rc out err Hcmd Hexec).
    eexists. rewrite !app_assoc. reflexivity.
Qed.

(** C6: when no command string comes out of the expression, nothing is
    executed: the run reports ["Error: no command to execute"] on the status
    line, asks for one redraw and returns. *)
Theorem no_command_reported (expr : string) (paths : list string) (w : world) :
  shellcmd_expr E expr paths = None ->
  execute_cmd E expr paths w
  = Some (tt, append_log w [EvShellcmdExpr expr paths;
                            EvInfoUpdateStatus "Error: no command to execute";
                            EvAppRedraw])
  /\ forall w', execute_cmd E expr paths w = Some (tt, w') ->
       filter is_exec (log w') = filter is_exec (log w)
       /\ imglist w' = imglist w /\ help_shown w' = help_shown w.
Proof.
  intros H. rewrite (execute_cmd_no_command E expr paths w H).
  split; [reflexivity |].
  intros w' [= <-]. simpl. rewrite filter_app. simpl.
  now rewrite app_nil_r.
Qed.

(** Where the sizes of the captured streams are values of [int], a run
    that executes the child writes to its own standard output the captured
    output up to the first terminator byte, and likewise the captured errors
    to its standard error, before the status line is set; a stream without
    such a byte is written whole. *)
Theorem output_mirrored (expr : string) (paths : list string) (w : world)
    (cmd : string) (rc : Z) (out err : option array) :
  shellcmd_expr E expr paths = Some cmd ->
  shellcmd_exec E cmd = (rc, out, err) ->
  fits_int out -> fits_int err ->
  execute_cmd E expr paths w
  = Some (tt, append_log w
                ([EvShellcmdExpr expr paths; EvShellcmdExec cmd]
                 ++ match out with Some o => [EvStdout (c_str o)] | None => [] end
                 ++ match err with Some e => [EvStderr (c_str e)] | None => [] end
                 ++ [EvInfoUpdateStatus (published (status_message E cmd rc out err));
                     EvAppRedraw]))
  /\ forall bytes : array, no_nul bytes = true -> c_str bytes = bytes.
Proof.
  intros Hcmd Hexec Hout Herr. split; [| exact c_str_text].
  rewrite (execute_cmd_command E expr paths w cmd rc out err Hcmd Hexec).
  destruct out as [o|]; destruct err as [e|]; simpl in Hout, Herr;
    rewrite ?(fmt_prec_s_fits _ Hout), ?(fmt_prec_s_fits _ Herr); reflexivity.
Qed.

End StatusMessage.

(** ** [collect_paths] *)

Section CollectPaths.

Variable E : externals.

Lemma count_marked_acc (imgs : list image) (n : nat) :
  count_marked imgs n = n + List.length (marked_sources imgs).
Proof.
  unfold marked_sources.
  revert n; induction imgs as [|img imgs IH]; intros n; simpl; [lia |].
  rewrite IH. destruct (marked img); simpl; lia.
Qed.

Lemma fill_paths_acc (imgs : list image) (paths : list string) :
  fill_paths imgs paths = (paths ++ marked_sources imgs)%list.
Proof.
  unfold marked_sources.
  revert paths; induction imgs as [|img imgs IH]; intros paths; simpl.
  - now rewrite app_nil_r.
  - rewrite IH. destruct (marked img); simpl; [| reflexivity].
    now rewrite <- app_assoc.
Qed.

Lemma marked_sources_nil (imgs : list image) :
  marked_sources imgs = [] <-> Forall (fun img => marked img = false) imgs.
Proof.
  unfold marked_sources. induction imgs as [|img imgs IH]; simpl.
  - split; [constructor | reflexivity].
  - destruct (marked img) eqn:Hm; simpl.
    + split; [discriminate |]. intros H. inversion H; congruence.
    + rewrite IH. split; [now constructor | intros H; now inversion H].
Qed.

(** The three ways out of [collect_paths]. *)
Lemma collect_paths_run (w : world) :
  collect_paths E w
  = Some (match marked_sources (imglist w) with
          | [] => None
          | _ :: _ =>
              if malloc_ok E ((List.length (marked_sources (imglist w)) + 1) * sizeof_ptr)
              then Some (marked_sources (imglist w))
              else None
          end, w).
Proof.
  unfold collect_paths. rewrite count_marked_acc, fill_paths_acc. simpl.
  destruct (marked_sources (imglist w)) as [|p ps] eqn:Hm; [reflexivity |].
  simpl List.length. cbn [Nat.eqb].
  destruct (malloc_ok E _); reflexivity.
Qed.

(** C2, as the code has it: when the array of paths can be allocated,
    [collect_paths] returns the sources of exactly the marked images, in the
    order of the image list, returns nothing if and only if no image is
    marked, and leaves every image as it was. *)
Theorem collect_paths_marked (w : world) :
  malloc_ok E ((List.length (marked_sources (imglist w)) + 1) * sizeof_ptr) = true ->
  exists r,
    collect_paths E w = Some (r, w)
    /\ r = match marked_sources (imglist w) with
           | [] => None
           | _ :: _ => Some (marked_sources (imglist w))
           end
    /\ (r = None <-> Forall (fun img => marked img = false) (imglist w)).
Proof.
  intros Hm. rewrite collect_paths_run, Hm.
  eexists. split; [reflexivity |]. split; [reflexivity |].
  rewrite <- marked_sources_nil.
  destruct (marked_sources (imglist w)); split; congruence.
Qed.

End CollectPaths.

(** C2 as written fails when [malloc] gives no memory: one image is marked
    and the result is absent all the same. *)
Lemma collect_paths_absent_with_marked_image :
  collect_paths (demo_externals true (0%Z, None, None)) (demo_world [img_a])
  = Some (None, demo_world [img_a])
  /\ marked img_a = true
  /\ ~ Forall (fun img => marked img = false) (imglist (demo_world [img_a])).
Proof.
  split; [reflexivity |]. split; [reflexivity |].
  intros H. inversion H as [|x l Hx Hl]. discriminate Hx.
Qed.

(** ** [mode_handle] *)

Section ModeHandle.

Variable E : externals.
Variable m : mode.

Lemma redraws_app (a b : list event) : redraws (a ++ b) = redraws a + redraws b.
Proof. unfold redraws. now rewrite filter_app, length_app. Qed.

(** Every run of [execute_cmd] returns, having asked for one redraw and
    having handed to [shellcmd_expr] the paths it was given. *)
Lemma execute_cmd_log (expr : string) (paths : list string) (w : world) :
  exists evs,
    execute_cmd E expr paths w = Some (tt, append_log w evs)
    /\ redraws evs = 1
    /\ forall e ps, In (EvShellcmdExpr e ps) evs -> ps = paths.
Proof.
  destruct (shellcmd_expr E expr paths) as [cmd|] eqn:Hcmd.
  - destruct (shellcmd_exec E cmd) as [[rc out] err] eqn:Hexec.
    rewrite (execute_cmd_command E expr paths w cmd rc out err Hcmd Hexec).
    eexists. split; [reflexivity |]. split.
    + destruct out, err; reflexivity.
    + intros e ps Hin.
      destruct out, err; simpl in Hin;
        repeat (destruct Hin as [Hin | Hin]; [congruence || discriminate |]);
        contradiction.
  - rewrite (execute_cmd_no_command E expr paths w Hcmd).
    eexists. split; [reflexivity |]. split; [reflexivity |].
    intros e ps Hin. simpl in Hin.
    repeat (destruct Hin as [Hin | Hin]; [congruence || discriminate |]).
    contradiction.
Qed.

Lemma mode_handle_exec_marked (a : action) (w : world) :
  type a = action_exec_marked ->
  mode_handle E m a w
  = match marked_sources (imglist w) with
    | [] => Some (tt, w)
    | _ :: _ =>
        if malloc_ok E ((List.length (marked_sources (imglist w)) + 1) * sizeof_ptr)
        then execute_cmd E (params a) (marked_sources (imglist w)) w
        else Some (tt, w)
    end.
Proof.
  intros Ht. unfold mode_handle. rewrite Ht.
  unfold bind. rewrite collect_paths_run.
  destruct (marked_sources (imglist w)); [reflexivity |].
  destruct (malloc_ok E _); reflexivity.
Qed.

(** C3: with no image marked, the dispatch of the action for the marked
    images changes nothing: no command is built or run and the status line
    is not touched.  And whatever the marks, a path set handed to
    [execute_cmd] by this action is not empty. *)
Theorem exec_marked_without_marks (a : action) (w : world) :
  type a = action_exec_marked ->
  (marked_sources (imglist w) = [] -> mode_handle E m a w = Some (tt, w))
  /\ exists evs,
       mode_handle E m a w = Some (tt, append_log w evs)
       /\ forall e ps, In (EvShellcmdExpr e ps) evs -> ps <> [].
Proof.
  intros Ht. rewrite (mode_handle_exec_marked a w Ht). split.
  - intros ->. reflexivity.
  - destruct (marked_sources (imglist w)) as [|p ps] eqn:Hm.
    + exists []. rewrite append_log_nil. split; [reflexivity |]. intros e ps [].
    + destruct (malloc_ok E _).
      * destruct (execute_cmd_log (params a) (p :: ps) w) as (evs & Hrun & _ & Hps).
        exists evs. split; [exact Hrun |].
        intros e ps' Hin. rewrite (Hps e ps' Hin). discriminate.
      * exists []. rewrite append_log_nil. split; [reflexivity |]. intros e ps' [].
Qed.

(** C10: when images are marked and the array of paths cannot be
    allocated, [collect_paths] gives the absent result of the case without
    marks, and the action for the marked images does nothing. *)
Theorem exec_marked_without_memory (a : action) (w : world) :
  marked_sources (imglist w) <> [] ->
  malloc_ok E ((List.length (marked_sources (imglist w)) + 1) * sizeof_ptr) = false ->
  collect_paths E w = Some (None, w)
  /\ (forall w0, marked_sources (imglist w0) = [] ->
                 collect_paths E w0 = Some (None, w0))
  /\ (type a = action_exec_marked -> mode_handle E m a w = Some (tt, w)).
Proof.
  intros Hmarked Hfail. split; [| split].
  - rewrite collect_paths_run, Hfail.
    destruct (marked_sources (imglist w)); [contradiction | reflexivity].
  - intros w0 H0. rewrite collect_paths_run, H0. reflexivity.
  - intros Ht. rewrite (mode_handle_exec_marked a w Ht), Hfail.
    destruct (marked_sources (imglist w)); reflexivity.
Qed.

(** C7, as the code has it: only the message composed after a command was
    run goes through the trimming and reaches the status line with at most
    60 characters; the text of a set-status action and the message for an
    unhandled action reach it whole, whatever their length. *)
Theorem status_texts (a : action) (w : world) :
  (type a = action_status ->
   mode_handle E m a w
   = Some (tt, append_log w [EvInfoUpdateStatus (c_str (params a)); EvAppRedraw]))
  /\ (forall id, type a = action_other id -> handle_action m a = false ->
      mode_handle E m a w
      = Some (tt, append_log w
                    [EvModeHandleAction a;
                     EvInfoUpdateStatus
                       ("Unhandled action: " ++ c_str (action_typename E a));
                     EvAppRedraw]))
  /\ (forall expr paths cmd rc out err,
      shellcmd_expr E expr paths = Some cmd ->
      shellcmd_exec E cmd = (rc, out, err) ->
      exists evs,
        execute_cmd E expr paths w
        = Some (tt, append_log w
                      (evs ++ [EvInfoUpdateStatus
                                 (published (status_message E cmd rc out err));
                               EvAppRedraw]))
        /\ String.length (published (status_message E cmd rc out err)) <= 60).
Proof.
  split; [| split].
  - intros Ht. unfold mode_handle. rewrite Ht.
    unfold info_update_status, app_redraw. rewrite bind_emit.
    unfold emit. now rewrite append_log_app.
  - intros id Ht Hh. unfold mode_handle. rewrite Ht, bind_emit, Hh.
    unfold info_update_status, app_redraw. rewrite bind_emit.
    unfold emit. now rewrite !append_log_app.
  - intros expr paths cmd rc out err Hcmd Hexec.
    rewrite (execute_cmd_command E expr paths w cmd rc out err Hcmd Hexec).
    eexists. split; [rewrite !app_assoc; reflexivity |].
    apply length_published.
Qed.

Lemma current_image_run (w : world) :
  get_current m < List.length (imglist w) ->
  exists img, current_image m w = Some (img, w).
Proof.
  intros H. unfold current_image.
  destruct (nth_error (imglist w) (get_current m)) as [img|] eqn:Hn.
  - now exists img.
  - apply nth_error_None in Hn. lia.
Qed.

(** What a dispatch adds to the log holds at most one redraw. *)
Lemma mode_handle_log (a : action) (w w' : world) :
  mode_handle E m a w = Some (tt, w') ->
  exists evs, log w' = (log w ++ evs)%list /\ redraws evs <= 1.
Proof.
  unfold mode_handle. destruct (type a) eqn:Ht.
  - intros [= <-]. log_extended.
  - intros [= <-]. log_extended.
  - intros [= <-]. log_extended.
  - intros [= <-]. log_extended.
  - unfold bind, current_image.
    destruct (nth_error (imglist w) (get_current m)) as [img|]; [| discriminate].
    destruct (execute_cmd_log (params a) [source img] w) as (evs & Hrun & Hr & _).
    rewrite Hrun. intros [= <-]. exists evs. split; [reflexivity | lia].
  - unfold image_toggle_marked, bind, current_image.
    destruct (nth_error (imglist w) (get_current m)) as [img|]; [| discriminate].
    intros [= <-]. log_extended.
  - unfold bind. rewrite collect_paths_run.
    destruct (marked_sources (imglist w)) as [|p ps].
    + intros [= <-]. log_unchanged.
    + destruct (malloc_ok E _).
      * destruct (execute_cmd_log (params a) (p :: ps) w) as (evs & Hrun & Hr & _).
        rewrite Hrun. intros [= <-]. exists evs. split; [reflexivity | lia].
      * intros [= <-]. log_unchanged.
  - unfold bind, help_visible. destruct (help_shown w); intros [= <-]; log_extended.
  - unfold bind, help_visible. destruct (help_shown w); intros [= <-]; log_extended.
  - rewrite bind_emit. destruct (handle_action m a); intros [= <-]; log_extended.
Qed.

(** With a current image at hand, every dispatch returns. *)
Lemma mode_handle_returns (a : action) (w : world) :
  get_current m < List.length (imglist w) ->
  exists w', mode_handle E m a w = Some (tt, w').
Proof.
  intros Hcur. destruct (current_image_run w Hcur) as (img & Himg).
  unfold mode_handle. destruct (type a) eqn:Ht; try (eexists; reflexivity).
  - unfold bind. rewrite Himg.
    destruct (execute_cmd_log (params a) [source img] w) as (evs & Hrun & _).
    rewrite Hrun. eexists; reflexivity.
  - unfold image_toggle_marked, bind. rewrite Himg. eexists; reflexivity.
  - unfold bind. rewrite collect_paths_run.
    destruct (marked_sources (imglist w)) as [|p ps]; [eexists; reflexivity |].
    destruct (malloc_ok E _); [| eexists; reflexivity].
    destruct (execute_cmd_log (params a) (p :: ps) w) as (evs & Hrun & _).
    rewrite Hrun. eexists; reflexivity.
  - unfold bind, help_visible. destruct (help_shown w); eexists; reflexivity.
  - unfold bind, help_visible. destruct (help_shown w); eexists; reflexivity.
  - rewrite bind_emit. destruct (handle_action m a); eexists; reflexivity.
Qed.

(** C9: whatever the action, one dispatch asks for no redraw or for one,
    never for more: it returns whenever the mode has a current image, and
    the calls it made hold at most one redraw request. *)
Theorem at_most_one_redraw (a : action) (w : world) :
  (forall w', mode_handle E m a w = Some (tt, w') ->
     exists evs, log w' = (log w ++ evs)%list /\ redraws evs <= 1)
  /\ (get_current m < List.length (imglist w) ->
      exists w', mode_handle E m a w = Some (tt, w')).
Proof.
  split; [intros w'; apply mode_handle_log | apply mode_handle_returns].
Qed.

End ModeHandle.

(** ** The theorems at concrete inputs

    Each theorem with a premise is applied once to the surroundings defined
    above, the premises being settled by computation. *)

(** C7 as written fails for a set-status action with a text of 70
    characters: the status line receives all 70, not the trimmed text. *)
Lemma set_status_not_trimmed :
  mode_handle demo_ok demo_mode set_status_70 (demo_world [])
  = Some (tt, append_log (demo_world []) [EvInfoUpdateStatus text70; EvAppRedraw])
  /\ String.length text70 = 70
  /\ text70 <> published text70.
Proof.
  split; [reflexivity |]. split; [reflexivity |].
  intros H. apply (f_equal String.length) in H. vm_compute in H. discriminate.
Qed.

(** C4 as written fails for a child that exits with code 0 and writes a
    terminator byte first: two bytes are captured, so the text is not
    empty, yet the status is the empty text, neither the captured bytes nor
    ["Success: "] and the command. *)
Lemma success_status_cut_at_nul :
  execute_cmd (demo_externals false (0%Z, Some bytes_0b, None))
    "cat" ["/tmp/a.png"] (demo_world [])
  = Some (tt, append_log (demo_world [])
                [EvShellcmdExpr "cat" ["/tmp/a.png"];
                 EvShellcmdExec "cat /tmp/a.png";
                 EvStdout EmptyString;
                 EvInfoUpdateStatus EmptyString;
                 EvAppRedraw])
  /\ c_str (status_message (demo_externals false (0%Z, Some bytes_0b, None))
              "cat /tmp/a.png" 0 (Some bytes_0b) None) = EmptyString
  /\ size bytes_0b = 2
  /\ EmptyString <> bytes_0b
  /\ EmptyString <> "Success: " ++ "cat /tmp/a.png".
Proof.
  repeat split; try reflexivity; discriminate.
Qed.

(** C5 as written fails for a child that exits with code 2 and writes a
    terminator byte in the middle of its errors: of the three bytes captured
    on standard error the status holds one behind ["Error 2: "], and the
    captured standard output does not take their place. *)
Lemma failure_status_cut_at_nul :
  c_str (status_message (demo_externals false (2%Z, Some "out", Some bytes_a0b))
           "false /tmp/a.png" 2 (Some "out") (Some bytes_a0b))
  = "Error 2: a"
  /\ "Error 2: a" <> "Error 2: " ++ bytes_a0b
  /\ "Error 2: a" <> "Error 2: " ++ "out"
  /\ c_str (status_message (demo_externals false (2%Z, Some "out", Some bytes_0b))
              "false /tmp/a.png" 2 (Some "out") (Some bytes_0b))
     = "Error 2: ".
Proof.
  repeat split; try reflexivity; discriminate.
Qed.

(** C8: the code at captured output that holds a terminator byte: of the
    three bytes captured, one reaches the standard output, although line 39
    announces that the output is duplicated. *)
Lemma nul_byte_cuts_mirrored_output :
  execute_cmd (demo_externals false (0%Z, Some bytes_a0b, None))
    "cat" ["/tmp/a.png"] (demo_world [])
  = Some (tt, append_log (demo_world [])
                [EvShellcmdExpr "cat" ["/tmp/a.png"];
                 EvShellcmdExec "cat /tmp/a.png";
                 EvStdout "a";
                 EvInfoUpdateStatus "a";
                 EvAppRedraw])
  /\ size bytes_a0b = 3
  /\ "a" <> bytes_a0b.
Proof.
  split; [reflexivity |]. split; [reflexivity | discriminate].
Qed.

Lemma collect_paths_marked_witness :
  collect_paths demo_ok (demo_world [img_a; img_b; img_c])
  = Some (Some ["/tmp/a.png"; "/tmp/c.png"], demo_world [img_a; img_b; img_c]).
Proof.
  destruct (collect_paths_marked demo_ok (demo_world [img_a; img_b; img_c]) eq_refl)
    as (r & Hrun & Hr & _).
  rewrite Hrun, Hr. reflexivity.
Defined.

Lemma exec_marked_without_marks_witness :
  mode_handle demo_ok demo_mode exec_marked_identify (demo_world [img_b])
  = Some (tt, demo_world [img_b]).
Proof.
  exact (proj1 (exec_marked_without_marks demo_ok demo_mode exec_marked_identify
                  (demo_world [img_b]) eq_refl) eq_refl).
Defined.

Lemma success_status_witness :
  c_str (status_message (demo_externals false (0%Z, Some "PNG 640x480", Some "warn"))
           "identify /tmp/a.png" 0 (Some "PNG 640x480") (Some "warn"))
  = "PNG 640x480".
Proof.
  exact (proj1 (proj2 (success_status
                         (demo_externals false (0%Z, Some "PNG 640x480", Some "warn"))
                         "identify" ["/tmp/a.png"] (demo_world [img_a])
                         "identify /tmp/a.png" (Some "PNG 640x480") (Some "warn")
                         eq_refl eq_refl))
           "PNG 640x480" eq_refl eq_refl).
Defined.

Lemma failure_status_witness :
  c_str (status_message (demo_externals false (1%Z, Some "partial", Some "boom"))
           "false /tmp/a.png" 1 (Some "partial") (Some "boom"))
  = "Error 1: boom".
Proof.
  refine (proj1 (failure_status (demo_externals false (1%Z, Some "partial", Some "boom"))
                   "false" ["/tmp/a.png"] (demo_world [img_a])
                   "false /tmp/a.png" 1 (Some "partial") (Some "boom")
                   eq_refl eq_refl _ _)).
  - unfold int_range. lia.
  - discriminate.
Defined.

Lemma no_command_reported_witness :
  execute_cmd demo_ok EmptyString ["/tmp/a.png"] (demo_world [img_a])
  = Some (tt, append_log (demo_world [img_a])
                [EvShellcmdExpr EmptyString ["/tmp/a.png"];
                 EvInfoUpdateStatus "Error: no command to execute";
                 EvAppRedraw]).
Proof.
  exact (proj1 (no_command_reported demo_ok EmptyString ["/tmp/a.png"]
                  (demo_world [img_a]) eq_refl)).
Defined.

Lemma status_texts_witness :
  mode_handle demo_ok demo_mode set_status_70 (demo_world [])
  = Some (tt, append_log (demo_world [])
                [EvInfoUpdateStatus (c_str (params set_status_70)); EvAppRedraw]).
Proof.
  exact (proj1 (status_texts demo_ok demo_mode set_status_70 (demo_world [])) eq_refl).
Defined.

Lemma output_mirrored_witness :
  execute_cmd (demo_externals false (0%Z, Some "ok", Some "warn"))
    "identify" ["/tmp/a.png"] (demo_world [img_a])
  = Some (tt, append_log (demo_world [img_a])
                ([EvShellcmdExpr "identify" ["/tmp/a.png"];
                  EvShellcmdExec "identify /tmp/a.png"]
                 ++ [EvStdout (c_str "ok")] ++ [EvStderr (c_str "warn")]
                 ++ [EvInfoUpdateStatus
                       (published
                          (status_message (demo_externals false (0%Z, Some "ok", Some "warn"))
                             "identify /tmp/a.png" 0 (Some "ok") (Some "warn")));
                     EvAppRedraw])).
Proof.
  refine (proj1 (output_mirrored (demo_externals false (0%Z, Some "ok", Some "warn"))
                   "identify" ["/tmp/a.png"] (demo_world [img_a])
                   "identify /tmp/a.png" 0 (Some "ok") (Some "warn")
                   eq_refl eq_refl _ _)); simpl; lia.
Defined.

Lemma at_most_one_redraw_witness :
  exists w' evs,
    mode_handle demo_ok demo_mode toggle_help (demo_world [img_a]) = Some (tt, w')
    /\ log w' = (log (demo_world [img_a]) ++ evs)%list
    /\ redraws evs <= 1.
Proof.
  destruct (at_most_one_redraw demo_ok demo_mode toggle_help (demo_world [img_a]))
    as [Hlog Hret].
  destruct (Hret ltac:(simpl; lia)) as [w' Hw'].
  destruct (Hlog w' Hw') as (evs & Hevs & Hr).
  exists w', evs. repeat split; assumption.
Defined.

Lemma exec_marked_without_memory_witness :
  collect_paths (demo_externals true (0%Z, None, None)) (demo_world [img_a; img_c])
  = Some (None, demo_world [img_a; img_c])
  /\ mode_handle (demo_externals true (0%Z, None, None)) demo_mode
       exec_marked_identify (demo_world [img_a; img_c])
     = Some (tt, demo_world [img_a; img_c]).
Proof.
  destruct (exec_marked_without_memory (demo_externals true (0%Z, None, None))
              demo_mode exec_marked_identify (demo_world [img_a; img_c]))
    as (Hcollect & _ & Hhandle).
  - discriminate.
  - reflexivity.
  - split; [exact Hcollect | exact (Hhandle eq_refl)].
Defined.

(** * Further properties of the code *)

(** ** The trimming, in place *)

Section TrimmingInPlace.

Lemma length_memcpy (dst src : string) (off : nat) :
  String.length (memcpy dst off src) = String.length dst.
Proof.
  revert off src; induction dst as [|c dst IH]; intros off src; [reflexivity |].
  destruct off as [|off]; [destruct src as [|x src] |]; cbn [memcpy String.length];
    try reflexivity; now rewrite IH.
Qed.

Lemma take_memcpy (dst src : string) (off : nat) :
  take off (memcpy dst off src) = take off dst.
Proof.
  revert off; induction dst as [|c dst IH]; intros off; [reflexivity |].
  destruct off as [|off]; [now destruct src |].
  cbn [memcpy take]. now rewrite IH.
Qed.

Lemma drop_memcpy (dst src : string) (off : nat) :
  drop (off + String.length src) (memcpy dst off src)
  = drop (off + String.length src) dst.
Proof.
  revert off src; induction dst as [|c dst IH]; intros off src.
  - reflexivity.
  - destruct off as [|off].
    + destruct src as [|x src]; [reflexivity |].
      cbn [memcpy String.length Nat.add drop]. exact (IH 0 src).
    + cbn [memcpy Nat.add drop]. exact (IH off src).
Qed.

Lemma strlen_terminated (a rest : string) :
  no_nul a = true -> strlen (a ++ String NUL rest) = String.length a.
Proof.
  induction a as [|c a IH]; cbn [append strlen no_nul String.length];
    [reflexivity |].
  destruct (Ascii.eqb c NUL); cbn [negb andb]; [discriminate |].
  intros H. now rewrite IH.
Qed.

Lemma take_append (p t : string) (n : nat) :
  String.length p <= n -> take n (p ++ t) = p ++ take (n - String.length p) t.
Proof.
  revert n; induction p as [|c p IH]; intros n H; cbn [append String.length] in *.
  - now rewrite Nat.sub_0_r.
  - destruct n as [|n]; [lia |]. cbn [take Nat.sub]. rewrite IH by lia. reflexivity.
Qed.

Lemma strlen_trimmed (msg : string) :
  max_status < strlen msg -> strlen (trim_status msg) = 59.
Proof.
  intros H. rewrite (trim_status_long msg H). unfold max_status in H.
  change (take 56 msg ++ ellipsis ++ drop 60 msg)
    with (take 56 msg ++ "..." ++ String NUL (drop 60 msg)).
  rewrite <- append_assoc, strlen_terminated.
  - rewrite length_append, length_take; [reflexivity |].
    pose proof (strlen_le_length msg). lia.
  - rewrite no_nul_append, no_nul_take by lia. reflexivity.
Qed.

(** X2: the trimming rewrites the message where it lies: the buffer keeps
    its size, no byte before offset 56 or from offset 60 on is touched, and
    the message does not get longer. *)
Theorem trim_status_in_place (msg : string) :
  String.length (trim_status msg) = String.length msg
  /\ take 56 (trim_status msg) = take 56 msg
  /\ drop 60 (trim_status msg) = drop 60 msg
  /\ strlen (trim_status msg) <= strlen msg.
Proof.
  unfold trim_status. destruct (Nat.ltb max_status (strlen msg)) eqn:E.
  - apply Nat.ltb_lt in E. repeat split.
    + apply length_memcpy.
    + apply (take_memcpy msg ellipsis 56).
    + apply (drop_memcpy msg ellipsis 56).
    + pose proof (strlen_trimmed msg E) as H. unfold trim_status in H.
      apply Nat.ltb_lt in E as Eb. rewrite Eb in H.
      unfold max_status in E. lia.
  - repeat split; lia.
Qed.

(** X3: trimming a trimmed message changes nothing. *)
Theorem trim_status_idempotent (msg : string) :
  trim_status (trim_status msg) = trim_status msg.
Proof.
  destruct (Nat.ltb max_status (strlen msg)) eqn:E.
  - apply Nat.ltb_lt in E. pose proof (strlen_trimmed msg E) as H.
    unfold trim_status at 1. rewrite H. reflexivity.
  - unfold trim_status at 2. rewrite E. unfold trim_status. now rewrite E.
Qed.

(** A leading text of at most 56 characters is still there after the
    trimming. *)
Lemma published_keeps_prefix (msg p t : string) :
  c_str msg = p ++ t -> String.length p <= 56 ->
  exists rest, published msg = p ++ rest.
Proof.
  intros Hmsg Hp. destruct (Nat.ltb max_status (strlen msg)) eqn:E.
  - apply Nat.ltb_lt in E. rewrite (published_long msg E).
    unfold max_status in E.
    rewrite <- take_c_str by lia. rewrite Hmsg, take_append by exact Hp.
    eexists. rewrite append_assoc. reflexivity.
  - apply Nat.ltb_ge in E. rewrite (published_short msg E), Hmsg.
    now exists t.
Qed.

End TrimmingInPlace.

(** ** What [execute_cmd] publishes *)

Section Published.

Variable E : externals.

(** X4: the words that tell the outcome are never cut by the trimming: the
    published status starts with ["Success: "] for a silent success, with
    ["Child process timed out: "] for a timeout, and with ["Error c: "] for
    a failure with code [c], however long the text behind them. *)
Theorem outcome_words_survive (cmd : string) (rc : Z) (out err : option array) :
  (rc = 0%Z -> out = None ->
   exists rest, published (status_message E cmd rc out err) = "Success: " ++ rest)
  /\ (rc <> 0%Z -> rc = SHELLCMD_TIMEOUT E ->
      exists rest,
        published (status_message E cmd rc out err)
        = "Child process timed out: " ++ rest)
  /\ (rc <> 0%Z -> rc <> SHELLCMD_TIMEOUT E ->
      exists rest,
        published (status_message E cmd rc out err)
        = ("Error " ++ fmt_d rc ++ ": ") ++ rest).
Proof.
  split; [| split].
  - intros -> ->. eapply published_keeps_prefix.
    + exact (status_message_success E cmd None err).
    + simpl. lia.
  - intros Hnz ->. eapply published_keeps_prefix.
    + exact (status_message_timeout E cmd out err Hnz).
    + simpl. lia.
  - intros Hnz Hnt.
    apply (published_keeps_prefix _ ("Error " ++ fmt_d rc ++ ": ")
             match err with
             | Some e => c_str e
             | None =>
                 match out with
                 | Some o => c_str o
                 | None => c_str (strerror E rc)
                 end
             end).
    + rewrite (status_message_failure E cmd rc out err Hnz Hnt).
      now rewrite !append_assoc.
    + rewrite !length_append. pose proof (fmt_d_length rc).
      change (String.length "Error ") with 6. change (String.length ": ") with 2.
      lia.
Qed.

(** X5: the 256 bytes of [desc] are never too few: ["Error %d: "] takes at
    most 19 characters, and [snprintf] stores all of them. *)
Theorem desc_never_truncated (rc : Z) :
  String.length ("Error " ++ fmt_d rc ++ ": ") <= 19
  /\ c_str (snprintf 256 ("Error " ++ fmt_d rc ++ ": "))
     = "Error " ++ fmt_d rc ++ ": ".
Proof.
  split; [| apply c_str_desc].
  rewrite !length_append. pose proof (fmt_d_length rc).
  change (String.length "Error ") with 6. change (String.length ": ") with 2.
  lia.
Qed.

(** X1: every run of [execute_cmd] returns; it first hands the expression
    and the paths to [shellcmd_expr], and ends by setting the status line
    once, to a text of at most 60 characters, and asking for the redraw; in
    between it runs the child at most once, and only when a command was
    built.  The image list and the help overlay are left alone. *)
Theorem execute_cmd_shape (expr : string) (paths : list string) (w : world) :
  exists mid text,
    execute_cmd E expr paths w
    = Some (tt, append_log w
                  (EvShellcmdExpr expr paths
                   :: mid ++ [EvInfoUpdateStatus text; EvAppRedraw]))
    /\ forallb is_child_event mid = true
    /\ List.length (filter is_exec mid)
       = match shellcmd_expr E expr paths with Some _ => 1 | None => 0 end
    /\ String.length text <= 60.
Proof.
  destruct (shellcmd_expr E expr paths) as [cmd|] eqn:Hcmd.
  - destruct (shellcmd_exec E cmd) as [[rc out] err] eqn:Hexec.
    rewrite (execute_cmd_command E expr paths w cmd rc out err Hcmd Hexec).
    exists (EvShellcmdExec cmd
            :: match out with
               | Some o => [EvStdout (fmt_prec_s (cast_int (Z.of_nat (size o))) o)]
               | None => []
               end
            ++ match err with
               | Some e => [EvStderr (fmt_prec_s (cast_int (Z.of_nat (size e))) e)]
               | None => []
               end),
           (published (status_message E cmd rc out err)).
    split; [| split; [| split]].
    + cbn [app]. rewrite <- !app_assoc. reflexivity.
    + destruct out, err; reflexivity.
    + destruct out, err; reflexivity.
    + apply length_published.
  - rewrite (execute_cmd_no_command E expr paths w Hcmd).
    exists [], "Error: no command to execute".
    repeat split. simpl. lia.
Qed.

End Published.

(** ** The array of paths *)

Section PathArray.

Variable E : externals.

(** X6: the second loop of [collect_paths] stores as many pointers as the
    first loop counted, so that they and the closing [NULL] fill the
    [paths_num + 1] entries asked of [malloc]; a result is returned only
    from a successful allocation, is never an empty array, and the world is
    the same afterwards whatever the result. *)
Theorem stored_paths_fit (w : world) :
  List.length (fill_paths (imglist w) []) = count_marked (imglist w) 0
  /\ exists r,
       collect_paths E w = Some (r, w)
       /\ match r with
          | Some ps =>
              ps = fill_paths (imglist w) []
              /\ ps <> []
              /\ malloc_ok E ((count_marked (imglist w) 0 + 1) * sizeof_ptr) = true
          | None =>
              count_marked (imglist w) 0 = 0
              \/ malloc_ok E ((count_marked (imglist w) 0 + 1) * sizeof_ptr) = false
          end.
Proof.
  split.
  - rewrite fill_paths_acc, count_marked_acc. reflexivity.
  - unfold collect_paths.
    destruct (Nat.eqb (count_marked (imglist w) 0) 0) eqn:E0.
    + eexists. split; [reflexivity |]. left. now apply Nat.eqb_eq.
    + destruct (malloc_ok E _) eqn:Em; cbn [negb].
      * eexists. split; [reflexivity |]. split; [reflexivity |]. split; [| reflexivity].
        apply Nat.eqb_neq in E0. intros Hnil. apply E0.
        rewrite fill_paths_acc in Hnil. cbn [app] in Hnil.
        rewrite count_marked_acc, Hnil. reflexivity.
      * eexists. split; [reflexivity |]. now right.
Qed.

End PathArray.

(** ** What a dispatch does and does not do *)

Section Dispatch.

Variable E : externals.
Variable m : mode.

Lemma append_log_inj (w : world) (a b : list event) :
  append_log w a = append_log w b -> a = b.
Proof.
  intros H. apply (f_equal log) in H. cbn [append_log log] in H.
  now apply app_inv_head in H.
Qed.

Lemma filter_none (p q : event -> bool) (l : list event) :
  forallb q l = true -> (forall e, q e = true -> p e = false) -> filter p l = [].
Proof.
  intros Hall Hpq. induction l as [|e l IH]; [reflexivity |].
  cbn [forallb] in Hall. apply andb_true_iff in Hall as [He Hl].
  cbn [filter]. now rewrite (Hpq e He), IH.
Qed.

(** The calls of a run of [execute_cmd], read from its result. *)
Lemma execute_cmd_events (expr : string) (paths : list string) (w : world)
    (evs : list event) :
  execute_cmd E expr paths w = Some (tt, append_log w evs) ->
  forallb is_command_event evs = true
  /\ filter is_expr evs = [EvShellcmdExpr expr paths]
  /\ List.length (filter is_exec evs) <= 1
  /\ List.length (filter is_status evs) = 1.
Proof.
  destruct (shellcmd_expr E expr paths) as [cmd|] eqn:Hcmd.
  - destruct (shellcmd_exec E cmd) as [[rc out] err] eqn:Hexec.
    rewrite (execute_cmd_command E expr paths w cmd rc out err Hcmd Hexec).
    intros [= H]. apply app_inv_head in H. subst evs.
    destruct out, err; cbn; repeat split; lia.
  - rewrite (execute_cmd_no_command E expr paths w Hcmd).
    intros [= H]. apply app_inv_head in H. subst evs.
    cbn; repeat split; lia.
Qed.


Lemma execute_cmd_appends (expr : string) (paths : list string) (w w' : world)
    (evs : list event) :
  execute_cmd E expr paths w = Some (tt, w') ->
  log w' = (log w ++ evs)%list ->
  w' = append_log w evs.
Proof.
  destruct (execute_cmd_log E expr paths w) as (evs0 & Hrun & _).
  rewrite Hrun. intros [= <-] Hlog. cbn [append_log log] in Hlog.
  apply app_inv_head in Hlog. now subst.
Qed.

(** One case for each branch of the switch. *)
Lemma dispatch_inv (a : action) (w w' : world) (evs : list event) :
  dispatches E m a w w' evs ->
  match type a with
  | action_info =>
      w' = append_log w evs /\ evs = [EvInfoSwitch (params a); EvAppRedraw]
  | action_status =>
      w' = append_log w evs
      /\ evs = [EvInfoUpdateStatus (c_str (params a)); EvAppRedraw]
  | action_fullscreen => w' = append_log w evs /\ evs = [EvToggleFullscreen]
  | action_mode => w' = append_log w evs /\ evs = [EvAppSwitchMode (params a)]
  | action_exec =>
      w' = append_log w evs
      /\ exists img,
           nth_error (imglist w) (get_current m) = Some img
           /\ execute_cmd E (params a) [source img] w = Some (tt, append_log w evs)
  | action_mark =>
      help_shown w' = help_shown w
      /\ imglist w' = toggle_at (get_current m) (imglist w)
      /\ exists img,
           nth_error (imglist w) (get_current m) = Some img
           /\ evs = [EvImageToggleMarked (get_current m);
                     EvInfoUpdateMark (negb (marked img));
                     EvAppRedraw]
  | action_exec_marked =>
      w' = append_log w evs
      /\ match marked_sources (imglist w) with
         | [] => evs = []
         | _ :: _ =>
             if malloc_ok E ((List.length (marked_sources (imglist w)) + 1) * sizeof_ptr)
             then execute_cmd E (params a) (marked_sources (imglist w)) w
                  = Some (tt, append_log w evs)
             else evs = []
         end
  | action_help =>
      imglist w' = imglist w
      /\ help_shown w' = negb (help_shown w)
      /\ evs = [if help_shown w then EvHelpHide else EvHelpShow (get_keybinds m);
                EvAppRedraw]
  | action_exit =>
      imglist w' = imglist w
      /\ help_shown w' = false
      /\ evs = if help_shown w then [EvHelpHide; EvAppRedraw] else [EvAppExit 0]
  | action_other _ =>
      w' = append_log w evs
      /\ evs = EvModeHandleAction a
               :: if handle_action m a then []
                  else [EvInfoUpdateStatus
                          ("Unhandled action: " ++ c_str (action_typename E a));
                        EvAppRedraw]
  end.
Proof.
  intros [Hrun Hlog].
  destruct (type a) eqn:Ht;
    try (unfold mode_handle in Hrun; rewrite Ht in Hrun).
  - injection Hrun as <-. cbn in Hlog. rewrite <- app_assoc in Hlog.
    apply app_inv_head in Hlog. subst evs. split; [| reflexivity].
    unfold append_log. cbn. now rewrite <- app_assoc.
  - injection Hrun as <-. cbn in Hlog. rewrite <- app_assoc in Hlog.
    apply app_inv_head in Hlog. subst evs. split; [| reflexivity].
    unfold append_log. cbn. now rewrite <- app_assoc.
  - injection Hrun as <-. cbn in Hlog.
    apply app_inv_head in Hlog. subst evs. split; reflexivity.
  - injection Hrun as <-. cbn in Hlog.
    apply app_inv_head in Hlog. subst evs. split; reflexivity.
  - unfold bind, current_image in Hrun.
    destruct (nth_error (imglist w) (get_current m)) as [img|]; [| discriminate].
    pose proof (execute_cmd_appends _ _ _ _ _ Hrun Hlog) as ->.
    split; [reflexivity |]. exists img. split; [reflexivity | exact Hrun].
  - unfold image_toggle_marked, bind, current_image in Hrun.
    destruct (nth_error (imglist w) (get_current m)) as [img|]; [| discriminate].
    injection Hrun as <-. cbn in Hlog. rewrite <- !app_assoc in Hlog.
    apply app_inv_head in Hlog. subst evs.
    split; [reflexivity |]. split; [reflexivity |].
    exists img. split; reflexivity.
  - unfold bind in Hrun. rewrite collect_paths_run in Hrun.
    destruct (marked_sources (imglist w)) as [|p ps].
    + injection Hrun as <-. rewrite <- (app_nil_r (log w)) in Hlog at 1.
      apply app_inv_head in Hlog. subst evs.
      split; [now rewrite append_log_nil | reflexivity].
    + destruct (malloc_ok E _).
      * pose proof (execute_cmd_appends _ _ _ _ _ Hrun Hlog) as ->.
        split; [reflexivity | exact Hrun].
      * injection Hrun as <-. rewrite <- (app_nil_r (log w)) in Hlog at 1.
        apply app_inv_head in Hlog. subst evs.
        split; [now rewrite append_log_nil | reflexivity].
  - unfold bind, help_visible in Hrun. destruct (help_shown w);
      injection Hrun as <-; cbn in Hlog; rewrite <- !app_assoc in Hlog;
      apply app_inv_head in Hlog; subst evs; repeat split.
  - unfold bind, help_visible in Hrun. destruct (help_shown w) eqn:Hh;
      injection Hrun as <-; cbn in Hlog; rewrite <- ?app_assoc in Hlog;
      apply app_inv_head in Hlog; subst evs; repeat split; exact Hh.
  - rewrite bind_emit in Hrun. destruct (handle_action m a);
      injection Hrun as <-; cbn in Hlog; rewrite <- ?app_assoc in Hlog;
      apply app_inv_head in Hlog; subst evs; (split; [| reflexivity]);
      unfold append_log; cbn; now rewrite <- ?app_assoc.
Qed.

End Dispatch.

Section DispatchFacts.

Variable E : externals.
Variable m : mode.

(** X7: a shell command is built and a child run only by the actions for
    the current image and for the marked images; no other action reaches
    [shellcmd_expr], [shellcmd_exec] or the copies of the child's output. *)
Theorem commands_only_from_exec_actions (a : action) (w w' : world)
    (evs : list event) :
  dispatches E m a w w' evs ->
  runs_command (type a) = false ->
  filter is_expr evs = [] /\ filter is_child_event evs = [].
Proof.
  intros H Hn. apply dispatch_inv in H.
  destruct (type a); try discriminate Hn.
  - destruct H as [_ ->]. split; reflexivity.
  - destruct H as [_ ->]. split; reflexivity.
  - destruct H as [_ ->]. split; reflexivity.
  - destruct H as [_ ->]. split; reflexivity.
  - destruct H as (_ & _ & img & _ & ->). split; reflexivity.
  - destruct H as (_ & _ & ->). destruct (help_shown w); split; reflexivity.
  - destruct H as (_ & _ & ->). destruct (help_shown w); split; reflexivity.
  - destruct H as [_ ->]. destruct (handle_action m a); split; reflexivity.
Qed.


(** X9: the application is asked to exit only by the exit action while the
    help overlay is hidden, with code 0, and nothing else is called then;
    while the overlay is shown the exit action hides it instead. *)
Theorem exit_only_with_help_hidden (a : action) (w w' : world) (evs : list event) :
  dispatches E m a w w' evs ->
  filter is_exit evs
  = match type a with
    | action_exit => if help_shown w then [] else [EvAppExit 0]
    | _ => []
    end
  /\ match type a with
     | action_exit =>
         evs = if help_shown w then [EvHelpHide; EvAppRedraw] else [EvAppExit 0]
     | _ => True
     end.
Proof.
  intros H. apply dispatch_inv in H.
  destruct (type a).
  - destruct H as [_ ->]. split; [reflexivity | exact I].
  - destruct H as [_ ->]. split; [reflexivity | exact I].
  - destruct H as [_ ->]. split; [reflexivity | exact I].
  - destruct H as [_ ->]. split; [reflexivity | exact I].
  - destruct H as (_ & img & _ & Hrun).
    destruct (execute_cmd_events E _ _ _ _ Hrun) as (Hall & _).
    split; [| exact I]. apply (filter_none is_exit is_command_event); [exact Hall |].
    now intros [].
  - destruct H as (_ & _ & img & _ & ->). split; [reflexivity | exact I].
  - destruct H as [_ H]. split; [| exact I].
    destruct (marked_sources (imglist w)) as [|p ps]; [now subst |].
    destruct (malloc_ok E _); [| now subst].
    destruct (execute_cmd_events E _ _ _ _ H) as (Hall & _).
    apply (filter_none is_exit is_command_event); [exact Hall |].
    now intros [].
  - destruct H as (_ & _ & ->). split; [| exact I].
    destruct (help_shown w); reflexivity.
  - destruct H as (_ & _ & ->). destruct (help_shown w); split; reflexivity.
  - destruct H as [_ ->]. split; [| exact I].
    destruct (handle_action m a); reflexivity.
Qed.

(** X10: the status line is set by four kinds of action only: set-status,
    the two that run a command, and an action the mode does not handle;
    showing info, fullscreen, mode switch, marking, help and exit never
    touch it. *)
Theorem status_line_untouched (a : action) (w w' : world) (evs : list event) :
  dispatches E m a w w' evs ->
  sets_status (type a) = false ->
  filter is_status evs = [].
Proof.
  intros H Hn. apply dispatch_inv in H.
  destruct (type a); try discriminate Hn.
  - destruct H as [_ ->]. reflexivity.
  - destruct H as [_ ->]. reflexivity.
  - destruct H as [_ ->]. reflexivity.
  - destruct H as (_ & _ & img & _ & ->). reflexivity.
  - destruct H as (_ & _ & ->). destruct (help_shown w); reflexivity.
  - destruct H as (_ & _ & ->). destruct (help_shown w); reflexivity.
Qed.

(** X11: of the actions [mode_handle] serves itself, only marking changes
    an image, and only help and exit change whether the overlay is shown. *)
Theorem images_and_help_kept (a : action) (w w' : world) (evs : list event) :
  dispatches E m a w w' evs ->
  is_builtin (type a) = true ->
  (type a <> action_mark -> imglist w' = imglist w)
  /\ (type a <> action_help -> type a <> action_exit ->
      help_shown w' = help_shown w).
Proof.
  intros H Hb. apply dispatch_inv in H.
  destruct (type a); try discriminate Hb.
  - destruct H as [-> _]. split; reflexivity.
  - destruct H as [-> _]. split; reflexivity.
  - destruct H as [-> _]. split; reflexivity.
  - destruct H as [-> _]. split; reflexivity.
  - destruct H as [-> _]. split; reflexivity.
  - destruct H as (Hh & _). split; [intros Hne; now contradiction Hne | intros _ _; exact Hh].
  - destruct H as [-> _]. split; reflexivity.
  - destruct H as (Hi & _). split; [intros _; exact Hi | intros Hne; now contradiction Hne].
  - destruct H as (Hi & _).
    split; [intros _; exact Hi | intros _ Hne; now contradiction Hne].
Qed.

(** X12: the mode's own handler is asked about an action exactly when the
    action is none of the nine served here, and it is asked first; when it
    answers that it handled the action, nothing else is called. *)
Theorem delegation_to_mode (a : action) (w w' : world) (evs : list event) :
  dispatches E m a w w' evs ->
  filter is_mode_call evs
  = (if is_builtin (type a) then [] else [EvModeHandleAction a])
  /\ (is_builtin (type a) = false ->
      exists rest,
        evs = EvModeHandleAction a :: rest
        /\ (handle_action m a = true -> rest = [])
        /\ (handle_action m a = false -> redraws rest = 1)).
Proof.
  intros H. apply dispatch_inv in H.
  destruct (type a).
  - destruct H as [_ ->]. split; [reflexivity | discriminate].
  - destruct H as [_ ->]. split; [reflexivity | discriminate].
  - destruct H as [_ ->]. split; [reflexivity | discriminate].
  - destruct H as [_ ->]. split; [reflexivity | discriminate].
  - destruct H as (_ & img & _ & Hrun).
    destruct (execute_cmd_events E _ _ _ _ Hrun) as (Hall & _).
    split; [| discriminate].
    apply (filter_none is_mode_call is_command_event); [exact Hall |].
    now intros [].
  - destruct H as (_ & _ & img & _ & ->). split; [reflexivity | discriminate].
  - destruct H as [_ H]. split; [| discriminate].
    destruct (marked_sources (imglist w)) as [|p ps]; [now subst |].
    destruct (malloc_ok E _); [| now subst].
    destruct (execute_cmd_events E _ _ _ _ H) as (Hall & _).
    apply (filter_none is_mode_call is_command_event); [exact Hall |].
    now intros [].
  - destruct H as (_ & _ & ->). split; [| discriminate].
    destruct (help_shown w); reflexivity.
  - destruct H as (_ & _ & ->). split; [| discriminate].
    destruct (help_shown w); reflexivity.
  - destruct H as [_ ->]. split.
    + destruct (handle_action m a); reflexivity.
    + intros _. eexists. split; [reflexivity |].
      destruct (handle_action m a); split; intros Hh;
        try discriminate Hh; reflexivity.
Qed.

(** X13: [mode_handle] itself dereferences [mode->get_current()] in one
    branch only, the one that runs a command on the current image (line
    134): that dispatch goes wrong exactly when there is no current image.
    Every action other than that one and marking, whose use of the pointer
    lies in [image_toggle_marked], returns without a current image. *)
Theorem current_image_needed (a : action) (w : world) :
  (type a = action_exec ->
   (mode_handle E m a w = None
    <-> nth_error (imglist w) (get_current m) = None))
  /\ (type a <> action_exec -> type a <> action_mark ->
      exists w', mode_handle E m a w = Some (tt, w')).
Proof.
  unfold mode_handle. split.
  - intros ->. unfold bind, current_image.
    destruct (nth_error (imglist w) (get_current m)) as [img|].
    + destruct (execute_cmd_log E (params a) [source img] w) as (evs & Hrun & _).
      rewrite Hrun. split; discriminate.
    + split; reflexivity.
  - intros Hx Hk. destruct (type a) eqn:Ht; try contradiction;
      try (eexists; reflexivity).
    + unfold bind. rewrite collect_paths_run.
      destruct (marked_sources (imglist w)) as [|p ps]; [eexists; reflexivity |].
      destruct (malloc_ok E _); [| eexists; reflexivity].
      destruct (execute_cmd_log E (params a) (p :: ps) w) as (evs & Hrun & _).
      rewrite Hrun. eexists; reflexivity.
    + unfold bind, help_visible. destruct (help_shown w); eexists; reflexivity.
    + unfold bind, help_visible. destruct (help_shown w); eexists; reflexivity.
    + rewrite bind_emit. destruct (handle_action m a); eexists; reflexivity.
Qed.

End DispatchFacts.

(** ** Dispatches one after another *)

Section Composition.

Variable E : externals.

(** The calls of [execute_cmd] do not depend on the world it is run in. *)
Lemma execute_cmd_uniform (expr : string) (paths : list string) :
  exists rest,
    forall w,
      execute_cmd E expr paths w
      = Some (tt, append_log w (EvShellcmdExpr expr paths :: rest)).
Proof.
  destruct (shellcmd_expr E expr paths) as [cmd|] eqn:Hcmd.
  - destruct (shellcmd_exec E cmd) as [[rc out] err] eqn:Hexec.
    eexists. intros w.
    rewrite (execute_cmd_command E expr paths w cmd rc out err Hcmd Hexec).
    reflexivity.
  - eexists. intros w. rewrite (execute_cmd_no_command E expr paths w Hcmd).
    reflexivity.
Qed.

Lemma toggle_at_marks (imgs : list image) (pos : nat) (img : image) :
  nth_error imgs pos = Some img -> marked img = false ->
  In (source img) (marked_sources (toggle_at pos imgs)).
Proof.
  unfold marked_sources.
  revert pos; induction imgs as [|i imgs IH]; intros pos Hn Hm.
  - destruct pos; discriminate Hn.
  - destruct pos as [|pos]; cbn [nth_error] in Hn.
    + injection Hn as ->. cbn. rewrite Hm. cbn. now left.
    + cbn [toggle_at filter]. destruct (marked i); cbn [map].
      * right. now apply (IH pos).
      * now apply (IH pos).
Qed.

(** X14: an image marked through the dispatcher is picked up by the next
    action for the marked images: when the current image is unmarked and
    memory is at hand, marking it and then running a command on the marked
    images hands [shellcmd_expr] a path set that holds its source. *)
Theorem marked_image_is_executed (m : mode) (a_mark a_run : action) (w : world)
    (img : image) :
  type a_mark = action_mark ->
  type a_run = action_exec_marked ->
  nth_error (imglist w) (get_current m) = Some img ->
  marked img = false ->
  (forall n, malloc_ok E n = true) ->
  exists w1 w2 paths rest,
    mode_handle E m a_mark w = Some (tt, w1)
    /\ mode_handle E m a_run w1 = Some (tt, w2)
    /\ log w2 = (log w1 ++ EvShellcmdExpr (params a_run) paths :: rest)%list
    /\ paths = marked_sources (imglist w1)
    /\ In (source img) paths.
Proof.
  intros Hmark Hrun Hcur Hm Halloc.
  pose proof (toggle_at_marks _ _ _ Hcur Hm) as Hin.
  assert (H1 : exists w1, mode_handle E m a_mark w = Some (tt, w1)
                          /\ imglist w1 = toggle_at (get_current m) (imglist w)).
  { unfold mode_handle. rewrite Hmark.
    unfold image_toggle_marked, bind, current_image. rewrite Hcur.
    eexists. split; reflexivity. }
  destruct H1 as (w1 & Hw1 & Himgs).
  rewrite <- Himgs in Hin.
  destruct (execute_cmd_uniform (params a_run) (marked_sources (imglist w1)))
    as (rest & Hexec).
  exists w1, (append_log w1 (EvShellcmdExpr (params a_run)
                               (marked_sources (imglist w1)) :: rest)),
         (marked_sources (imglist w1)), rest.
  split; [exact Hw1 |]. split; [| repeat split; exact Hin].
  rewrite (mode_handle_exec_marked E m a_run w1 Hrun), Halloc.
  destruct (marked_sources (imglist w1)) as [|p ps] eqn:Hps; [contradiction Hin |].
  apply Hexec.
Qed.

(** X15: the help action is its own inverse on the overlay: dispatched
    twice, it brings the overlay back to where it was, shows it once with
    the key bindings of the mode, and asks for a redraw each time; no image
    is touched. *)
Theorem help_toggles_back (m : mode) (a : action) (w : world) :
  type a = action_help ->
  exists w1 w2,
    mode_handle E m a w = Some (tt, w1)
    /\ mode_handle E m a w1 = Some (tt, w2)
    /\ help_shown w1 = negb (help_shown w)
    /\ help_shown w2 = help_shown w
    /\ imglist w2 = imglist w
    /\ log w2
       = (log w ++ if help_shown w
                   then [EvHelpHide; EvAppRedraw;
                         EvHelpShow (get_keybinds m); EvAppRedraw]
                   else [EvHelpShow (get_keybinds m); EvAppRedraw;
                         EvHelpHide; EvAppRedraw])%list.
Proof.
  intros Ht. unfold mode_handle. rewrite Ht.
  unfold bind, help_visible.
  destruct (help_shown w) eqn:Hh; cbn; eexists; eexists;
    (split; [reflexivity |]); cbn; (split; [reflexivity |]);
    cbn; rewrite <- ?app_assoc; repeat split.
Qed.

(** X16: exit right after help never leaves the overlay open: if help was
    hidden, the pair opens and closes it and the application goes on; if
    it was shown, help hides it and exit then ends the application with
    code 0. *)
Theorem exit_after_help (m : mode) (a_help a_exit : action) (w : world) :
  type a_help = action_help ->
  type a_exit = action_exit ->
  exists w1 w2,
    mode_handle E m a_help w = Some (tt, w1)
    /\ mode_handle E m a_exit w1 = Some (tt, w2)
    /\ help_shown w2 = false
    /\ log w2
       = (log w1 ++ if help_shown w then [EvAppExit 0]
                    else [EvHelpHide; EvAppRedraw])%list.
Proof.
  intros Hh He. unfold mode_handle. rewrite Hh, He.
  unfold bind, help_visible.
  destruct (help_shown w) eqn:Hs; cbn; eexists; eexists;
    (split; [reflexivity |]); cbn; (split; [reflexivity |]);
    cbn; rewrite <- ?app_assoc; repeat split.
Qed.

End Composition.

Section SameAnswers.

(** With the same timeout code and the same descriptions of the codes, the
    message for an outcome is the same. *)
Lemma status_message_ext (E1 E2 : externals) (cmd : string) (rc : Z)
    (out err : option array) :
  SHELLCMD_TIMEOUT E1 = SHELLCMD_TIMEOUT E2 ->
  strerror E1 rc = strerror E2 rc ->
  status_message E1 cmd rc out err = status_message E2 cmd rc out err.
Proof.
  intros Ht Hs. unfold status_message. now rewrite Ht, Hs.
Qed.

(** X17: running a command on the current image depends on the world only
    through the source of that image: two dispatches whose current images
    have the same source, and to which [shellcmd_expr], the child and
    [strerror] answer alike, make the same calls, starting with
    [shellcmd_expr] on that one path, whatever the modes, the marks, the
    other images, the overlay, the allocator and the calls made before. *)
Theorem exec_reads_only_current_source (E1 E2 : externals) (m1 m2 : mode)
    (a : action) (w1 w2 : world) (i1 i2 : image) :
  type a = action_exec ->
  nth_error (imglist w1) (get_current m1) = Some i1 ->
  nth_error (imglist w2) (get_current m2) = Some i2 ->
  source i1 = source i2 ->
  shellcmd_expr E1 (params a) [source i1] = shellcmd_expr E2 (params a) [source i1] ->
  (forall cmd, shellcmd_expr E1 (params a) [source i1] = Some cmd ->
     shellcmd_exec E1 cmd = shellcmd_exec E2 cmd) ->
  SHELLCMD_TIMEOUT E1 = SHELLCMD_TIMEOUT E2 ->
  (forall rc, strerror E1 rc = strerror E2 rc) ->
  exists rest,
    mode_handle E1 m1 a w1
    = Some (tt, append_log w1 (EvShellcmdExpr (params a) [source i1] :: rest))
    /\ mode_handle E2 m2 a w2
       = Some (tt, append_log w2 (EvShellcmdExpr (params a) [source i1] :: rest)).
Proof.
  intros Ht H1 H2 Hsrc Hexpr Hexec Htime Herr.
  unfold mode_handle. rewrite Ht.
  unfold bind, current_image. rewrite H1, H2, <- Hsrc.
  destruct (shellcmd_expr E1 (params a) [source i1]) as [cmd|] eqn:Hc1.
  - symmetry in Hexpr.
    destruct (shellcmd_exec E1 cmd) as [[rc out] err] eqn:Hx1.
    assert (Hx2 : shellcmd_exec E2 cmd = (rc, out, err))
      by (rewrite <- (Hexec cmd eq_refl); exact Hx1).
    rewrite (execute_cmd_command E1 _ _ w1 cmd rc out err Hc1 Hx1).
    rewrite (execute_cmd_command E2 _ _ w2 cmd rc out err Hexpr Hx2).
    rewrite (status_message_ext E1 E2 cmd rc out err Htime (Herr rc)).
    eexists. split; reflexivity.
  - symmetry in Hexpr.
    rewrite (execute_cmd_no_command E1 _ _ w1 Hc1).
    rewrite (execute_cmd_no_command E2 _ _ w2 Hexpr).
    eexists. split; reflexivity.
Qed.

End SameAnswers.


(** ** The further theorems at concrete inputs *)

Lemma outcome_words_survive_witness :
  exists rest,
    published (status_message (demo_externals false (1%Z, None, Some text70))
                 "false /tmp/a.png" 1 None (Some text70))
    = ("Error " ++ fmt_d 1 ++ ": ") ++ rest.
Proof.
  refine (proj2 (proj2 (outcome_words_survive
                          (demo_externals false (1%Z, None, Some text70))
                          "false /tmp/a.png" 1 None (Some text70))) _ _);
    cbn; discriminate.
Defined.

Lemma commands_only_from_exec_actions_witness :
  filter is_expr [EvInfoUpdateStatus text70; EvAppRedraw] = []
  /\ filter is_child_event [EvInfoUpdateStatus text70; EvAppRedraw] = [].
Proof.
  exact (commands_only_from_exec_actions demo_ok demo_mode set_status_70
           (demo_world [])
           (append_log (demo_world []) [EvInfoUpdateStatus text70; EvAppRedraw])
           [EvInfoUpdateStatus text70; EvAppRedraw]
           (conj eq_refl eq_refl) eq_refl).
Defined.


Lemma current_image_needed_witness :
  mode_handle demo_ok demo_mode (do_exec "identify") (demo_world []) = None
  /\ exists w', mode_handle demo_ok demo_mode set_status_70 (demo_world [])
                = Some (tt, w').
Proof.
  destruct (current_image_needed demo_ok demo_mode (do_exec "identify") (demo_world []))
    as [Hexec _].
  destruct (current_image_needed demo_ok demo_mode set_status_70 (demo_world []))
    as [_ Hother].
  split.
  - apply (proj2 (Hexec eq_refl)). reflexivity.
  - apply Hother; discriminate.
Defined.

Lemma exit_only_with_help_hidden_witness :
  filter is_exit [EvAppExit 0] = [EvAppExit 0] /\ [EvAppExit 0] = [EvAppExit 0].
Proof.
  exact (exit_only_with_help_hidden demo_ok demo_mode do_exit
           (demo_world [img_a]) (append_log (demo_world [img_a]) [EvAppExit 0])
           [EvAppExit 0] (conj eq_refl eq_refl)).
Defined.

Lemma status_line_untouched_witness :
  filter is_status [EvHelpShow ["q: exit"]; EvAppRedraw] = [].
Proof.
  exact (status_line_untouched demo_ok demo_mode toggle_help
           (demo_world [img_a])
           {| imglist := [img_a]; help_shown := true;
              log := [EvHelpShow ["q: exit"]; EvAppRedraw] |}
           [EvHelpShow ["q: exit"]; EvAppRedraw]
           (conj eq_refl eq_refl) eq_refl).
Defined.

Lemma images_and_help_kept_witness :
  imglist {| imglist := [img_a]; help_shown := true;
             log := [EvHelpShow ["q: exit"]; EvAppRedraw] |}
  = imglist (demo_world [img_a]).
Proof.
  refine (proj1 (images_and_help_kept demo_ok demo_mode toggle_help
                   (demo_world [img_a])
                   {| imglist := [img_a]; help_shown := true;
                      log := [EvHelpShow ["q: exit"]; EvAppRedraw] |}
                   [EvHelpShow ["q: exit"]; EvAppRedraw]
                   (conj eq_refl eq_refl) eq_refl) _).
  discriminate.
Defined.

Lemma delegation_to_mode_witness :
  filter is_mode_call
    [EvModeHandleAction do_other;
     EvInfoUpdateStatus "Unhandled action: zoom";
     EvAppRedraw]
  = [EvModeHandleAction do_other].
Proof.
  exact (proj1 (delegation_to_mode demo_ok demo_mode do_other
                  (demo_world [img_a])
                  (append_log (demo_world [img_a])
                     [EvModeHandleAction do_other;
                      EvInfoUpdateStatus "Unhandled action: zoom";
                      EvAppRedraw])
                  _ (conj eq_refl eq_refl))).
Defined.

Lemma marked_image_is_executed_witness :
  exists w1 w2 paths rest,
    mode_handle demo_ok (demo_mode_at 1) do_mark (demo_world [img_a; img_b])
    = Some (tt, w1)
    /\ mode_handle demo_ok (demo_mode_at 1) exec_marked_identify w1 = Some (tt, w2)
    /\ log w2 = (log w1 ++ EvShellcmdExpr (params exec_marked_identify) paths :: rest)%list
    /\ paths = marked_sources (imglist w1)
    /\ In (source img_b) paths.
Proof.
  refine (marked_image_is_executed demo_ok (demo_mode_at 1) do_mark
            exec_marked_identify (demo_world [img_a; img_b]) img_b
            eq_refl eq_refl eq_refl eq_refl _).
  intros n. reflexivity.
Defined.

Lemma help_toggles_back_witness :
  exists w1 w2,
    mode_handle demo_ok demo_mode toggle_help (demo_world [img_a]) = Some (tt, w1)
    /\ mode_handle demo_ok demo_mode toggle_help w1 = Some (tt, w2)
    /\ help_shown w1 = negb (help_shown (demo_world [img_a]))
    /\ help_shown w2 = help_shown (demo_world [img_a])
    /\ imglist w2 = imglist (demo_world [img_a])
    /\ log w2
       = (log (demo_world [img_a])
          ++ if help_shown (demo_world [img_a])
             then [EvHelpHide; EvAppRedraw;
                   EvHelpShow (get_keybinds demo_mode); EvAppRedraw]
             else [EvHelpShow (get_keybinds demo_mode); EvAppRedraw;
                   EvHelpHide; EvAppRedraw])%list.
Proof.
  exact (help_toggles_back demo_ok demo_mode toggle_help (demo_world [img_a]) eq_refl).
Defined.

Lemma exit_after_help_witness :
  exists w1 w2,
    mode_handle demo_ok demo_mode toggle_help (demo_world [img_a]) = Some (tt, w1)
    /\ mode_handle demo_ok demo_mode do_exit w1 = Some (tt, w2)
    /\ help_shown w2 = false
    /\ log w2
       = (log w1 ++ if help_shown (demo_world [img_a]) then [EvAppExit 0]
                    else [EvHelpHide; EvAppRedraw])%list.
Proof.
  exact (exit_after_help demo_ok demo_mode toggle_help do_exit
           (demo_world [img_a]) eq_refl eq_refl).
Defined.

Lemma exec_reads_only_current_source_witness :
  exists rest,
    mode_handle (demo_externals false (1%Z, None, Some "boom")) demo_mode
      (do_exec "identify") (demo_world [img_a; img_b])
    = Some (tt, append_log (demo_world [img_a; img_b])
                  (EvShellcmdExpr "identify" ["/tmp/a.png"] :: rest))
    /\ mode_handle (demo_externals true (1%Z, None, Some "boom")) (demo_mode_at 1)
         (do_exec "identify")
         (demo_world [img_c; {| source := "/tmp/a.png"; marked := false |}])
       = Some (tt, append_log
                     (demo_world [img_c; {| source := "/tmp/a.png"; marked := false |}])
                     (EvShellcmdExpr "identify" ["/tmp/a.png"] :: rest)).
Proof.
  refine (exec_reads_only_current_source
            (demo_externals false (1%Z, None, Some "boom"))
            (demo_externals true (1%Z, None, Some "boom"))
            demo_mode (demo_mode_at 1)
            (do_exec "identify") (demo_world [img_a; img_b])
            (demo_world [img_c; {| source := "/tmp/a.png"; marked := false |}])
            img_a {| source := "/tmp/a.png"; marked := false |}
            eq_refl eq_refl eq_refl eq_refl eq_refl _ eq_refl _).
  - intros cmd _. reflexivity.
  - intros rc. reflexivity.
Defined.
